(** * PasswordChecker: the scorer, the rating mapper and the session loop

    A shallow embedding of [password-checker_v2.0.py] (module [V2]) and of
    the monolithic [password-checker_v1.0.py] (module [V1]).

    Python strings are sequences of Unicode code points: [len] counts code
    points and the patterns [[A-Z]], [[a-z]], [[0-9]], [[@$!%*?&]] are
    tested against code points.  A string is therefore a [list N]. *)

From Stdlib Require Import Ascii String DecimalString.
From Stdlib Require Import List ZArith NArith Lia Bool.
From Equations Require Import Equations.
Import ListNotations.

Local Open Scope Z_scope.

(** ** Strings *)

Definition char := N.
Definition str := list char.

(** An ASCII literal as a Python string. *)
Definition u (s : string) : str := map N_of_ascii (list_ascii_of_string s).

(** [len(s)] *)
Definition len (s : str) : Z := Z.of_nat (List.length s).

Definition str_eqb (a b : str) : bool :=
  if list_eq_dec N.eq_dec a b then true else false.

(** [x in {..}] for a set of strings *)
Definition str_in (x : str) (set : list str) : bool := existsb (str_eqb x) set.

(** [str(n)] for an integer inside an f-string *)
Definition dec (n : Z) : str := u (NilZero.string_of_int (Z.to_int n)).

(** [str.isspace] on one code point: the code points CPython's
    [_PyUnicode_IsWhitespace] accepts. *)
Definition is_whitespace (c : char) : bool :=
  ((9 <=? c) && (c <=? 13) || (28 <=? c) && (c <=? 32) ||
   (c =? 133) || (c =? 160) || (c =? 5760) ||
   (8192 <=? c) && (c <=? 8202) ||
   (c =? 8232) || (c =? 8233) || (c =? 8239) || (c =? 8287) ||
   (c =? 12288))%N.

(** [s.lstrip()] *)
Fixpoint lstrip (s : str) : str :=
  match s with
  | [] => []
  | c :: s' => if is_whitespace c then lstrip s' else s
  end.

(** [s.rstrip()] *)
Definition rstrip (s : str) : str := rev (lstrip (rev s)).

(** [s.strip()] *)
Definition strip (s : str) : str := rstrip (lstrip s).

(** ** Regular expressions

    Every pattern of the program is one character class; [re.search]
    succeeds when some code point of the subject is in the class. *)

Inductive class_item :=
| Range (lo hi : ascii)
| Lit (c : ascii).

Definition pattern := list class_item.

Definition item_matches (c : char) (i : class_item) : bool :=
  match i with
  | Range lo hi => ((N_of_ascii lo <=? c) && (c <=? N_of_ascii hi))%N
  | Lit a => (c =? N_of_ascii a)%N
  end.

Definition class_matches (p : pattern) (c : char) : bool :=
  existsb (item_matches c) p.

(** [bool(re.search(p, s))] *)
Definition re_search (p : pattern) (s : str) : bool :=
  existsb (class_matches p) s.

(** [r"[A-Z]"], [r"[a-z]"], [r"[0-9]"], [r"[@$!%*?&]"] *)
Definition pat_upper : pattern := [Range "A" "Z"].
Definition pat_lower : pattern := [Range "a" "z"].
Definition pat_digit : pattern := [Range "0" "9"].
Definition pat_symbols : pattern :=
  [Lit "@"; Lit "$"; Lit "!"; Lit "%"; Lit "*"; Lit "?"; Lit "&"].

(** [s.lower()].  An ASCII code point maps to itself, [A]-[Z] to [a]-[z].
    For the other code points the mapping is the one of Python's Unicode
    database, which is no part of the program and is taken as a parameter:
    [lower_full whole i] is what replaces the code point at index [i] of
    [whole] (the mapping of a capital sigma looks at its neighbours). *)
Section Lower.
Variable lower_full : str -> nat -> str.

Definition lower_at (whole : str) (i : nat) (c : char) : str :=
  if (c <? 128)%N
  then [if ((65 <=? c) && (c <=? 90))%N then (c + 32)%N else c]
  else lower_full whole i.

Fixpoint lower_from (whole : str) (i : nat) (s : str) : str :=
  match s with
  | [] => []
  | c :: s' => lower_at whole i c ++ lower_from whole (S i) s'
  end.

Definition lower (s : str) : str := lower_from s 0 s.
End Lower.

(** ** The terminal, the clock and the log file *)

(** The five rules, in the order of the validation chain. *)
Inductive reason := TooShort | NoUppercase | NoLowercase | NoDigit | NoSymbol.

Inductive colour := Red | Green | Yellow.

(** The prompts of [getpass.getpass] and [input]. *)
Inductive prompt :=
| PasswordPrompt   (* "Please enter your password to continue: " *)
| RetryPrompt      (* "Password not strong enough! Would you like to try again? (y/n): " *)
| AnotherPrompt.   (* "Nice job! Would you like to check another password? (y/n): " *)

(** The texts the two scripts print, one constructor per distinct text. *)
Inductive message :=
| Banner                    (* the three welcome lines *)
| InterruptedTryAgain       (* "(Interrupted) Try again." (v2) *)
| InterruptedTypePassword   (* "(Interrupted) Please type your password." (v1) *)
| VisibleInput              (* "(secure input not supported here; switching to visible input)" (v2) *)
| VisibleInputV1            (* "(Secure input not supported here; switching to visible input.)" (v1) *)
| InterruptedTypeYesNo      (* "(Interrupted) Type y/n or yes/no." (v2) *)
| NotYesNo                  (* "That's not a yes or no. Try again." (v2) *)
| HeyNotYesNo               (* "Hey! That's not a yes or no. Please type y/n (or yes/no)." (v1) *)
| EmptyInput                (* "Empty input! Please type a password (not just Enter)." *)
| CheckingStrength          (* "Checking password strength..." *)
| Spinner                   (* "Analyzing password... " and, the frames over, the tick *)
| Blocking (r : reason)     (* the message of the rule that failed *)
| Hurray (attempts : Z)     (* "Hurray! You created a strong password in {attempts} attempt(s)! ..." *)
| ScoreLine (c : colour) (score : Z) (rating : str)
                            (* "Password score: {score}/5 -> {rating}", green or yellow *)
| LogSaved                  (* "(Log saved to {path})" *)
| AllDone                   (* "All done! Thanks for checking your password with me." *)
| ThankYou (attempts : Z)   (* "Thank you for using my password checker! Attempts made: {attempts}. ..." *)
| Goodbye                   (* "Thanks for using my checker! Stay secure out there" *)
| BlankLine.                (* print() *)

Inductive output :=
| Ask (p : prompt)          (* a read displays its prompt *)
| Say (m : message).        (* print *)

(** What one call of [getpass.getpass] or [input] meets. *)
Inductive event :=
| Line (s : str)            (* the user types a line *)
| Interrupt                 (* EOFError or KeyboardInterrupt *)
| Failure.                  (* any other Exception *)

Inductive exn :=
| Interrupted               (* EOFError or KeyboardInterrupt *)
| OtherError                (* any other Exception *)
| SystemExit (code : Z).

(** [stdout]: what has been displayed; [logfile]: the lines appended to
    [~/Documents/PasswordChecker/password_log.txt]; [clock k]: the string
    [datetime.now().isoformat()] returns at its [k]-th call; [ticks]: how
    many times it has been called. *)
Record world := mkWorld {
  stdout : list output;
  logfile : list str;
  clock : nat -> str;
  ticks : nat }.

(** A computation consumes a prefix of the events.  It returns, raises, or
    is left waiting at a prompt when the events run out. *)
Inductive outcome (A : Type) :=
| Returned (a : A) (rest : list event) (w : world)
| Waiting (w : world)
| Raised (e : exn) (rest : list event) (w : world).
Arguments Returned {A} a rest w.
Arguments Waiting {A} w.
Arguments Raised {A} e rest w.

Definition io (A : Type) := list event -> world -> outcome A.

Definition ret {A} (a : A) : io A := fun ins w => Returned a ins w.

Definition bind {A B} (m : io A) (k : A -> io B) : io B :=
  fun ins w =>
    match m ins w with
    | Returned a rest w' => k a rest w'
    | Waiting w' => Waiting w'
    | Raised e rest w' => Raised e rest w'
    end.

Declare Scope io_scope.
Delimit Scope io_scope with io.
Notation "x <- m ;; k" := (bind m (fun x => k))
  (at level 61, m at next level, right associativity) : io_scope.
Notation "m ;; k" := (bind m (fun _ => k))
  (at level 61, right associativity) : io_scope.

Definition display (o : output) (w : world) : world :=
  mkWorld (stdout w ++ [o]) (logfile w) (clock w) (ticks w).

(** [print(...)] *)
Definition print (m : message) : io unit :=
  fun ins w => Returned tt ins (display (Say m) w).

(** [raise e] *)
Definition raise {A} (e : exn) : io A := fun ins w => Raised e ins w.

(** [f.write(line)] on the log file opened for appending *)
Definition append_log (line : str) : io unit :=
  fun ins w => Returned tt ins (mkWorld (stdout w) (logfile w ++ [line]) (clock w) (ticks w)).

(** [datetime.now().isoformat()] *)
Definition isoformat_now : io str :=
  fun ins w => Returned (clock w (ticks w)) ins
                 (mkWorld (stdout w) (logfile w) (clock w) (S (ticks w))).

(** How an iteration of a [while True] loop ends. *)
Inductive flow (St : Type) :=
| Continue (s : St)         (* on to the next iteration, with the loop's variables *)
| Break.                    (* the loop is left *)
Arguments Continue {St} s.
Arguments Break {St}.

Definition inspect {A} (a : A) : {b : A | a = b} := exist _ a eq_refl.

(** [f"{ts} | attempts={attempts} | score={score}/5 | rating={rating}\n"] *)
Definition log_line (ts : str) (attempts score : Z) (rating : str) : str :=
  ts ++ u " | attempts=" ++ dec attempts ++ u " | score=" ++ dec score
     ++ u "/5 | rating=" ++ rating ++ [10%N].

(** ** password-checker_v2.0.py *)

Module V2.
Section Program.
Variable lower_full : str -> nat -> str.

Local Open Scope io_scope.

(** *** Password logic (lines 36-66) *)

Definition score_password (password : str) (min_len : Z) (symbols_pat : pattern) : Z :=
  let score := 0 in
  let score := if len password >=? min_len then score + 1 else score in
  let score := if re_search pat_upper password then score + 1 else score in
  let score := if re_search pat_lower password then score + 1 else score in
  let score := if re_search pat_digit password then score + 1 else score in
  let score := if re_search symbols_pat password then score + 1 else score in
  score.

(** [score_password(password)]: the call with its default arguments *)
Definition score_password_default (password : str) : Z :=
  score_password password 8 pat_symbols.

Definition rating_from_score (score : Z) : str :=
  if score =? 5 then u "Strong"
  else if score >=? 3 then u "Medium"
  else u "Weak".

(** Every call leaves [logfile] at its default, so the one log file of
    [world] is written. *)
Definition log_attempt (attempts score : Z) (rating : str) : io unit :=
  ts <- isoformat_now ;;
  append_log (log_line ts attempts score rating) ;;
  print LogSaved.

(** *** Input handlers (lines 71-117) *)

(** Each iteration of the loop consumes the event its [getpass] meets and,
    after a failure, the event its [input] meets. *)
Fixpoint safe_getpass (p : prompt) (ins : list event) (w : world) : outcome str :=
  match ins with
  | [] => Waiting (display (Ask p) w)
  | Line s :: rest => Returned s rest (display (Ask p) w)
  | Interrupt :: rest =>
      safe_getpass p rest (display (Say InterruptedTryAgain) (display (Ask p) w))
  | Failure :: rest =>
      let w := display (Say VisibleInput) (display (Ask p) w) in
      match rest with
      | [] => Waiting (display (Ask p) w)
      | Line s :: rest' => Returned s rest' (display (Ask p) w)
      | Interrupt :: rest' =>
          safe_getpass p rest' (display (Say InterruptedTryAgain) (display (Ask p) w))
      | Failure :: rest' => Raised OtherError rest' (display (Ask p) w)
      end
  end.

Definition valid_yes : list str := [u "y"; u "yes"].
Definition valid_no : list str := [u "n"; u "no"].

Fixpoint ask_yes_no (p : prompt) (ins : list event) (w : world) : outcome bool :=
  match ins with
  | [] => Waiting (display (Ask p) w)
  | Interrupt :: rest =>
      ask_yes_no p rest (display (Say InterruptedTypeYesNo) (display (Ask p) w))
  | Failure :: rest => Raised OtherError rest (display (Ask p) w)
  | Line ans :: rest =>
      let w := display (Ask p) w in
      let ans_norm := lower lower_full (strip ans) in
      if str_in ans_norm valid_yes then Returned true rest w
      else if str_in ans_norm valid_no then Returned false rest w
      else ask_yes_no p rest (display (Say NotYesNo) w)
  end.

(** The frames of the spinner overwrite one another; what stays on the
    line is the message and the final tick. *)
Definition spinner : io unit := print Spinner.

(** *** Main checker (lines 122-170) *)

(** The [if]/[elif] chain of lines 138-148: the rule whose message is
    printed, [None] for the [else] branch. *)
Definition feedback (password : str) : option reason :=
  if len password <? 8 then Some TooShort
  else if negb (re_search pat_upper password) then Some NoUppercase
  else if negb (re_search pat_lower password) then Some NoLowercase
  else if negb (re_search pat_digit password) then Some NoDigit
  else if negb (re_search pat_symbols password) then Some NoSymbol
  else None.

(** [not password.strip()] *)
Definition is_blank (password : str) : bool :=
  match strip password with [] => true | _ :: _ => false end.

(** One iteration of the loop of [run_password_check]. *)
Definition run_password_check_body (attempts : Z) : io (flow Z) :=
  password <- safe_getpass PasswordPrompt ;;
  if is_blank password then
    print EmptyInput ;;
    ret (Continue attempts)
  else
    let attempts := attempts + 1 in
    print CheckingStrength ;;
    spinner ;;
    match feedback password with
    | None =>
        let score := score_password_default password in
        let rating := rating_from_score score in
        print (Hurray attempts) ;;
        print (ScoreLine Green score rating) ;;
        log_attempt attempts score rating ;;
        print AllDone ;;
        ret Break
    | Some r =>
        print (Blocking r) ;;
        let score := score_password_default password in
        let rating := rating_from_score score in
        print (ScoreLine Yellow score rating) ;;
        retry_yes <- ask_yes_no RetryPrompt ;;
        if negb retry_yes then
          print AllDone ;;
          print (ThankYou attempts) ;;
          log_attempt attempts score rating ;;
          ret Break
        else
          print BlankLine ;;
          ret (Continue attempts)
    end.

(** Each iteration reads at least one event, which bounds the loop. *)
Lemma safe_getpass_consumes p ins : forall w s rest w',
  safe_getpass p ins w = Returned s rest w' -> (length rest < length ins)%nat.
Proof.
  induction ins as [ins IH] using (well_founded_induction
    (well_founded_ltof _ (@length event))).
  unfold ltof in IH. intros w s rest w' H.
  destruct ins as [|[s0| |] ins]; simpl in H; try discriminate.
  - injection H as _ <- _. simpl. lia.
  - apply IH in H; simpl in *; lia.
  - destruct ins as [|[s1| |] ins]; try discriminate.
    + injection H as _ <- _. simpl. lia.
    + apply IH in H; simpl in *; lia.
Qed.

Lemma ask_yes_no_consumes p ins : forall w b rest w',
  ask_yes_no p ins w = Returned b rest w' -> (length rest < length ins)%nat.
Proof.
  induction ins as [|[ans| |] ins IH]; cbn [ask_yes_no length];
    intros w b rest w' H; try discriminate.
  - destruct (str_in _ valid_yes); [injection H as _ <- _; lia|].
    destruct (str_in _ valid_no); [injection H as _ <- _; lia|].
    apply IH in H. lia.
  - apply IH in H. lia.
Qed.

Lemma run_password_check_body_consumes attempts ins w r rest w' :
  run_password_check_body attempts ins w = Returned r rest w' ->
  (length rest < length ins)%nat.
Proof.
  unfold run_password_check_body, bind at 1.
  destruct (safe_getpass PasswordPrompt ins w) as [pw ins1 w1| |] eqn:Hread;
    try discriminate.
  apply safe_getpass_consumes in Hread.
  destruct (is_blank pw).
  - cbv [bind print ret]. intros H. injection H as _ <- _. exact Hread.
  - destruct (feedback pw).
    + cbv [bind print ret spinner].
      destruct (ask_yes_no RetryPrompt ins1 _) as [b ins2 w2| |] eqn:Hask;
        try discriminate.
      apply ask_yes_no_consumes in Hask.
      destruct b; cbv [negb log_attempt bind print ret isoformat_now append_log];
        intros H; injection H as _ <- _; lia.
    + cbv [bind print ret spinner log_attempt isoformat_now append_log].
      intros H. injection H as _ <- _. exact Hread.
Qed.

(** The [while True] loop of [run_password_check], entered with the
    current value of [attempts]. *)
Equations? run_password_check_loop (attempts : Z) (ins : list event) (w : world)
  : outcome unit by wf (length ins) lt :=
run_password_check_loop attempts ins w
    with inspect (run_password_check_body attempts ins w) := {
  | exist _ (Returned (Continue attempts') rest w') Hbody :=
      run_password_check_loop attempts' rest w';
  | exist _ (Returned Break rest w') _ := Returned tt rest w';
  | exist _ (Waiting w') _ := Waiting w';
  | exist _ (Raised e rest w') _ := Raised e rest w' }.
Proof. exact (run_password_check_body_consumes _ _ _ _ _ _ Hbody). Qed.

Lemma run_password_check_loop_step attempts ins w :
  run_password_check_loop attempts ins w =
  match run_password_check_body attempts ins w with
  | Returned (Continue attempts') rest w' => run_password_check_loop attempts' rest w'
  | Returned Break rest w' => Returned tt rest w'
  | Waiting w' => Waiting w'
  | Raised e rest w' => Raised e rest w'
  end.
Proof.
  simp run_password_check_loop. unfold inspect.
  generalize (@eq_refl _ (run_password_check_body attempts ins w)).
  generalize (run_password_check_body attempts ins w) at 2 4 5.
  intros [[a|] rest w'| |] Hb; simp run_password_check_loop; reflexivity.
Qed.

Lemma run_password_check_loop_consumes ins : forall attempts w r rest w',
  run_password_check_loop attempts ins w = Returned r rest w' ->
  (length rest < length ins)%nat.
Proof.
  induction ins as [ins IH] using (well_founded_induction
    (well_founded_ltof _ (@length event))).
  unfold ltof in IH. intros attempts w r rest w'.
  rewrite run_password_check_loop_step.
  destruct (run_password_check_body attempts ins w) as [[a|] ins1 w1| |] eqn:Hb;
    try discriminate; apply run_password_check_body_consumes in Hb.
  - intros H. apply IH in H; [lia | exact Hb].
  - intros H. injection H as _ <- _. exact Hb.
Qed.

Definition run_password_check : io unit :=
  let attempts := 0 in
  run_password_check_loop attempts.

(** *** Main program (lines 175-188) *)

(** One iteration of the loop of [main]. *)
Definition main_body : io (flow unit) :=
  run_password_check ;;
  another <- ask_yes_no AnotherPrompt ;;
  if negb another then
    print Goodbye ;;
    ret Break
  else
    print BlankLine ;;
    ret (Continue tt).

Lemma main_body_consumes ins w r rest w' :
  main_body ins w = Returned r rest w' -> (length rest < length ins)%nat.
Proof.
  unfold main_body, bind at 1.
  destruct (run_password_check ins w) as [[] ins1 w1| |] eqn:Hrun;
    try discriminate.
  apply run_password_check_loop_consumes in Hrun.
  unfold bind at 1.
  destruct (ask_yes_no AnotherPrompt ins1 w1) as [b ins2 w2| |] eqn:Hask;
    try discriminate.
  apply ask_yes_no_consumes in Hask.
  destruct b; cbv [negb bind print ret]; intros H; injection H as _ <- _; lia.
Qed.

Equations? main_loop (ins : list event) (w : world) : outcome unit
  by wf (length ins) lt :=
main_loop ins w with inspect (main_body ins w) := {
  | exist _ (Returned (Continue _) rest w') Hbody := main_loop rest w';
  | exist _ (Returned Break rest w') _ := Returned tt rest w';
  | exist _ (Waiting w') _ := Waiting w';
  | exist _ (Raised e rest w') _ := Raised e rest w' }.
Proof. exact (main_body_consumes _ _ _ _ _ Hbody). Qed.

Lemma main_loop_step ins w :
  main_loop ins w =
  match main_body ins w with
  | Returned (Continue _) rest w' => main_loop rest w'
  | Returned Break rest w' => Returned tt rest w'
  | Waiting w' => Waiting w'
  | Raised e rest w' => Raised e rest w'
  end.
Proof.
  simp main_loop. unfold inspect.
  generalize (@eq_refl _ (main_body ins w)).
  generalize (main_body ins w) at 2 4 5.
  intros [[a|] rest w'| |] Hb; simp main_loop; reflexivity.
Qed.

Definition main : io unit :=
  print Banner ;;
  main_loop.

End Program.
End V2.

(** ** password-checker_v1.0.py *)

Module V1.
Section Program.
Variable lower_full : str -> nat -> str.

Local Open Scope io_scope.

(** The loop around [getpass.getpass] (lines 43-56). *)
Fixpoint read_password (ins : list event) (w : world) : outcome str :=
  match ins with
  | [] => Waiting (display (Ask PasswordPrompt) w)
  | Line s :: rest => Returned s rest (display (Ask PasswordPrompt) w)
  | Interrupt :: rest =>
      read_password rest
        (display (Say InterruptedTypePassword) (display (Ask PasswordPrompt) w))
  | Failure :: rest =>
      let w := display (Say VisibleInputV1) (display (Ask PasswordPrompt) w) in
      match rest with
      | [] => Waiting (display (Ask PasswordPrompt) w)
      | Line s :: rest' => Returned s rest' (display (Ask PasswordPrompt) w)
      | Interrupt :: rest' =>
          read_password rest'
            (display (Say InterruptedTypePassword) (display (Ask PasswordPrompt) w))
      | Failure :: rest' => Raised OtherError rest' (display (Ask PasswordPrompt) w)
      end
  end.

(** [not password.strip()] (line 59) *)
Definition is_blank (password : str) : bool :=
  match strip password with [] => true | _ :: _ => false end.

(** The [if]/[elif] chain of lines 84-94: the rule whose message is
    printed, [None] for the [else] branch. *)
Definition feedback (password : str) : option reason :=
  if len password <? 8 then Some TooShort
  else if negb (re_search pat_upper password) then Some NoUppercase
  else if negb (re_search pat_lower password) then Some NoLowercase
  else if negb (re_search pat_digit password) then Some NoDigit
  else if negb (re_search pat_symbols password) then Some NoSymbol
  else None.

(** The score as lines 96-106 and again lines 135-145 compute it. *)
Definition inline_score (password : str) : Z :=
  let score := 0 in
  let score := if len password >=? 8 then score + 1 else score in
  let score := if re_search pat_upper password then score + 1 else score in
  let score := if re_search pat_lower password then score + 1 else score in
  let score := if re_search pat_digit password then score + 1 else score in
  let score := if re_search pat_symbols password then score + 1 else score in
  score.

(** The rating as it is displayed (lines 109-114 and 148-153). *)
Definition show_rating (score : Z) : io unit :=
  if score <? 3 then print (ScoreLine Yellow score (u "Weak"))
  else if (score =? 3) || (score =? 4) then print (ScoreLine Yellow score (u "Medium"))
  else print (ScoreLine Green score (u "Strong")).

(** The rating as it is logged (lines 125-126 and 171-172). *)
Definition logged_rating (score : Z) : str :=
  if score =? 5 then u "Strong"
  else if score >=? 3 then u "Medium"
  else u "Weak".

(** Lines 121-127 and 167-173. *)
Definition write_log (attempts score : Z) : io unit :=
  ts <- isoformat_now ;;
  append_log (log_line ts attempts score (logged_rating score)) ;;
  print LogSaved.

(** The retry prompt (lines 157-175): it returns on a yes and leaves the
    program on a no; its [input] is not guarded. *)
Fixpoint retry_loop (attempts score : Z) (ins : list event) (w : world) : outcome unit :=
  match ins with
  | [] => Waiting (display (Ask RetryPrompt) w)
  | Interrupt :: rest => Raised Interrupted rest (display (Ask RetryPrompt) w)
  | Failure :: rest => Raised OtherError rest (display (Ask RetryPrompt) w)
  | Line ans :: rest =>
      let w := display (Ask RetryPrompt) w in
      let retry := lower lower_full (strip ans) in
      if str_in retry [u "y"; u "yes"] then
        print BlankLine rest w
      else if str_in retry [u "n"; u "no"] then
        (print AllDone ;;
         print (ThankYou attempts) ;;
         write_log attempts score ;;
         raise (SystemExit 0)) rest w
      else retry_loop attempts score rest (display (Say HeyNotYesNo) w)
  end.

(** One iteration of the outer loop (lines 41-175). *)
Definition script_body (attempts : Z) : io (flow Z) :=
  password <- read_password ;;
  if is_blank password then
    print EmptyInput ;;
    ret (Continue attempts)
  else
    let attempts := attempts + 1 in
    print CheckingStrength ;;
    print Spinner ;;
    match feedback password with
    | None =>
        let score := inline_score password in
        show_rating score ;;
        print (Hurray attempts) ;;
        write_log attempts score ;;
        print AllDone ;;
        ret Break
    | Some r =>
        print (Blocking r) ;;
        let score := inline_score password in
        show_rating score ;;
        retry_loop attempts score ;;
        ret (Continue attempts)
    end.

Lemma read_password_consumes ins : forall w s rest w',
  read_password ins w = Returned s rest w' -> (length rest < length ins)%nat.
Proof.
  induction ins as [ins IH] using (well_founded_induction
    (well_founded_ltof _ (@length event))).
  unfold ltof in IH. intros w s rest w' H.
  destruct ins as [|[s0| |] ins]; simpl in H; try discriminate.
  - injection H as _ <- _. simpl. lia.
  - apply IH in H; simpl in *; lia.
  - destruct ins as [|[s1| |] ins]; try discriminate.
    + injection H as _ <- _. simpl. lia.
    + apply IH in H; simpl in *; lia.
Qed.

Lemma retry_loop_consumes attempts score ins : forall w r rest w',
  retry_loop attempts score ins w = Returned r rest w' ->
  (length rest < length ins)%nat.
Proof.
  induction ins as [|[ans| |] ins IH]; cbn [retry_loop length];
    intros w r rest w' H; try discriminate.
  destruct (str_in _ [u "y"; u "yes"]).
  - cbv [print] in H. injection H as _ <- _. lia.
  - destruct (str_in _ [u "n"; u "no"]).
    + cbv [bind print write_log isoformat_now append_log raise] in H. discriminate.
    + apply IH in H. lia.
Qed.

Lemma show_rating_inputs score ins w :
  exists w', show_rating score ins w = Returned tt ins w'.
Proof.
  unfold show_rating.
  destruct (score <? 3); [|destruct ((score =? 3) || (score =? 4))];
    eexists; reflexivity.
Qed.

Lemma script_body_consumes attempts ins w r rest w' :
  script_body attempts ins w = Returned r rest w' ->
  (length rest < length ins)%nat.
Proof.
  unfold script_body, bind at 1.
  destruct (read_password ins w) as [pw ins1 w1| |] eqn:Hread; try discriminate.
  apply read_password_consumes in Hread.
  destruct (is_blank pw).
  - cbv [bind print ret]. intros H. injection H as _ <- _. exact Hread.
  - unfold bind at 1. cbn [print]. unfold bind at 1. cbn [print].
    destruct (feedback pw).
    + unfold bind at 1. cbn [print]. unfold bind at 1.
      destruct (show_rating_inputs (inline_score pw) ins1
        (display (Say (Blocking r0)) (display (Say Spinner)
          (display (Say CheckingStrength) w1)))) as [w2 ->].
      unfold bind at 1.
      destruct (retry_loop _ _ ins1 w2) as [[] ins2 w3| |] eqn:Hretry;
        try discriminate.
      apply retry_loop_consumes in Hretry.
      cbv [ret]. intros H. injection H as _ <- _. lia.
    + unfold bind at 1.
      destruct (show_rating_inputs (inline_score pw) ins1
        (display (Say Spinner) (display (Say CheckingStrength) w1))) as [w2 ->].
      cbv [bind print ret write_log isoformat_now append_log].
      intros H. injection H as _ <- _. exact Hread.
Qed.

Equations? script_loop (attempts : Z) (ins : list event) (w : world)
  : outcome unit by wf (length ins) lt :=
script_loop attempts ins w with inspect (script_body attempts ins w) := {
  | exist _ (Returned (Continue attempts') rest w') Hbody :=
      script_loop attempts' rest w';
  | exist _ (Returned Break rest w') _ := Returned tt rest w';
  | exist _ (Waiting w') _ := Waiting w';
  | exist _ (Raised e rest w') _ := Raised e rest w' }.
Proof. exact (script_body_consumes _ _ _ _ _ _ Hbody). Qed.

Lemma script_loop_step attempts ins w :
  script_loop attempts ins w =
  match script_body attempts ins w with
  | Returned (Continue attempts') rest w' => script_loop attempts' rest w'
  | Returned Break rest w' => Returned tt rest w'
  | Waiting w' => Waiting w'
  | Raised e rest w' => Raised e rest w'
  end.
Proof.
  simp script_loop. unfold inspect.
  generalize (@eq_refl _ (script_body attempts ins w)).
  generalize (script_body attempts ins w) at 2 4 5.
  intros [[a|] rest w'| |] Hb; simp script_loop; reflexivity.
Qed.

(** The script: the banner (lines 34-36), [attempts = 0] and the loop. *)
Definition script : io unit :=
  print Banner ;;
  let attempts := 0 in
  script_loop attempts.

End Program.
End V1.


(** * The specification's vocabulary *)

(** The five composition rules as the specification words them. *)
Definition contains (P : char -> Prop) (s : str) : Prop :=
  exists c, In c s /\ P c.

Definition ascii_uppercase (c : char) : Prop := (65 <= c <= 90)%N.
Definition ascii_lowercase (c : char) : Prop := (97 <= c <= 122)%N.
Definition ascii_digit (c : char) : Prop := (48 <= c <= 57)%N.
Definition symbol (c : char) : Prop := In c (u "@$!%*?&").

(** The rule whose failure a [reason] reports. *)
Definition rule (r : reason) (password : str) : Prop :=
  match r with
  | TooShort => 8 <= len password
  | NoUppercase => contains ascii_uppercase password
  | NoLowercase => contains ascii_lowercase password
  | NoDigit => contains ascii_digit password
  | NoSymbol => contains symbol password
  end.

(** The fixed priority order: length, uppercase, lowercase, digit, symbol. *)
Definition priority : list reason :=
  [TooShort; NoUppercase; NoLowercase; NoDigit; NoSymbol].

(** [r] is the first rule of the priority order that [password] does not meet. *)
Definition first_unmet (r : reason) (password : str) : Prop :=
  exists before after,
    priority = before ++ r :: after /\
    Forall (fun r' => rule r' password) before /\
    ~ rule r password.

(** Blank or whitespace-only input. *)
Definition whitespace_only (s : str) : Prop :=
  Forall (fun c => is_whitespace c = true) s.

(** The world after the outputs [os] have been displayed. *)
Definition shows (os : list output) (w : world) : world :=
  mkWorld (stdout w ++ os) (logfile w) (clock w) (ticks w).

(** The world after one log line has been appended for an attempt: the
    clock has been read once. *)
Definition logged (attempts score : Z) (rating : str) (w : world) : world :=
  mkWorld (stdout w)
    (logfile w ++ [log_line (clock w (ticks w)) attempts score rating])
    (clock w) (S (ticks w)).

(** The world after a rejected attempt has been reported: the prompt, the
    progress messages, the one blocking reason and the score line. *)
Definition rejected (r : reason) (password : str) (w : world) : world :=
  shows [Ask PasswordPrompt; Say CheckingStrength; Say Spinner; Say (Blocking r);
         Say (ScoreLine Yellow (V2.score_password_default password)
                (V2.rating_from_score (V2.score_password_default password)))] w.

(** The world after an accepted attempt. *)
Definition accepted (attempts : Z) (w : world) : world :=
  shows [Say LogSaved; Say AllDone]
    (logged attempts 5 (u "Strong")
       (shows [Ask PasswordPrompt; Say CheckingStrength; Say Spinner;
               Say (Hurray attempts); Say (ScoreLine Green 5 (u "Strong"))] w)).

(** The world after v1.0 has accepted an attempt: the score line comes
    before the success message. *)
Definition accepted_v1 (attempts : Z) (w : world) : world :=
  shows [Say LogSaved; Say AllDone]
    (logged attempts 5 (u "Strong")
       (shows [Ask PasswordPrompt; Say CheckingStrength; Say Spinner;
               Say (ScoreLine Green 5 (u "Strong")); Say (Hurray attempts)] w)).

(** The world after the user has declined to retry. *)
Definition declined (attempts : Z) (r : reason) (password : str) (w : world) : world :=
  shows [Say LogSaved]
    (logged attempts (V2.score_password_default password)
       (V2.rating_from_score (V2.score_password_default password))
       (shows [Ask RetryPrompt; Say AllDone; Say (ThankYou attempts)]
          (rejected r password w))).

(** The blocking reasons among the outputs. *)
Definition reasons (os : list output) : list reason :=
  flat_map (fun o => match o with Say (Blocking r) => [r] | _ => [] end) os.

(** The trimmed, lowercased form of a response and the two kinds of valid
    answer. *)
Definition normalised (lower_full : str -> nat -> str) (ans : str) : str :=
  lower lower_full (strip ans).

Definition says_yes (lower_full : str -> nat -> str) (ans : str) : Prop :=
  In (normalised lower_full ans) [u "y"; u "yes"].

Definition says_no (lower_full : str -> nat -> str) (ans : str) : Prop :=
  In (normalised lower_full ans) [u "n"; u "no"].

(** What does not end [ask_yes_no]: a response that is no valid answer, or
    an interrupted read. *)
Definition invalid (lower_full : str -> nat -> str) (e : event) : Prop :=
  match e with
  | Line ans => ~ says_yes lower_full ans /\ ~ says_no lower_full ans
  | Interrupt => True
  | Failure => False
  end.

(** What [ask_yes_no] displays while it goes through such events: the prompt
    and the complaint, once for each. *)
Definition reprompts (p : prompt) (pre : list event) : list output :=
  flat_map (fun e => match e with
                     | Line _ => [Ask p; Say NotYesNo]
                     | Interrupt => [Ask p; Say InterruptedTypeYesNo]
                     | Failure => []
                     end) pre.

(** A log entry without its timestamp: attempt count, score, rating. *)
Definition entry : Type := Z * Z * str.

(** The lines that [es] become when they are logged one after the other,
    the first at the [k]-th reading of the clock. *)
Fixpoint stamp (clk : nat -> str) (k : nat) (es : list entry) : list str :=
  match es with
  | [] => []
  | (attempts, score, rating) :: es' =>
      log_line (clk k) attempts score rating :: stamp clk (S k) es'
  end.

(** An outcome without its world. *)
Inductive trace (A : Type) :=
| Returns (a : A) (rest : list event)
| Waits
| Raises (e : exn) (rest : list event).
Arguments Returns {A} a rest.
Arguments Waits {A}.
Arguments Raises {A} e rest.

Definition trace_of {A} (o : outcome A) : trace A :=
  match o with
  | Returned a rest _ => Returns a rest
  | Waiting _ => Waits
  | Raised e rest _ => Raises e rest
  end.

Definition world_of {A} (o : outcome A) : world :=
  match o with
  | Returned _ _ w => w
  | Waiting w => w
  | Raised _ _ w => w
  end.

(** From [w] to [w'] the entries [es], and nothing else, have been logged. *)
Definition extends (w w' : world) (es : list entry) : Prop :=
  logfile w' = logfile w ++ stamp (clock w) (ticks w) es /\
  clock w' = clock w /\
  ticks w' = (ticks w + length es)%nat.

(** On the events [ins] the computation [m] ends as [t] and logs [es],
    whatever the world it starts in. *)
Definition runs {A} (m : io A) (ins : list event) (t : trace A) (es : list entry) : Prop :=
  forall w, trace_of (m ins w) = t /\ extends w (world_of (m ins w)) es.

Definition uniform_at {A} (ins : list event) (m : io A) : Prop :=
  exists t es, runs m ins t es.

Definition uniform {A} (m : io A) : Prop := forall ins, uniform_at ins m.

Definition blank_world : world := mkWorld [] [] (fun _ => []) 0.

(** What [run_password_check] does once a rejected attempt has been
    reported (lines 163-170 and the next iterations). *)
Definition after_rejection (lower_full : str -> nat -> str) (attempts score : Z)
  : io unit :=
  bind (V2.ask_yes_no lower_full RetryPrompt) (fun retry_yes =>
    if retry_yes then
      bind (print BlankLine) (fun _ => V2.run_password_check_loop lower_full attempts)
    else
      bind (print AllDone) (fun _ =>
      bind (print (ThankYou attempts)) (fun _ =>
      bind (V2.log_attempt attempts score (V2.rating_from_score score)) (fun _ =>
      ret tt)))).

(** What an observer of the attempts sees on the terminal: the blocking
    reasons and the scores with their ratings. *)
Inductive seen :=
| SeenReason (r : reason)
| SeenScore (score : Z) (rating : str).

Definition seen_of (o : output) : list seen :=
  match o with
  | Say (Blocking r) => [SeenReason r]
  | Say (ScoreLine _ score rating) => [SeenScore score rating]
  | _ => []
  end.

Definition attempts_seen (os : list output) : list seen := flat_map seen_of os.

(** How a run ends: it is over (a return, the end of the script or
    [SystemExit]) with some events unread, it waits for input, or it dies of
    an exception. *)
Inductive ending :=
| Ended (status : Z) (unread : list event)
| StillWaiting
| Crashed (e : exn) (unread : list event).

Definition ending_of (o : outcome unit) : ending :=
  match o with
  | Returned _ rest _ => Ended 0 rest
  | Waiting _ => StillWaiting
  | Raised (SystemExit code) rest _ => Ended code rest
  | Raised e rest _ => Crashed e rest
  end.

(** The observable behaviour of a run: the scored attempts and the reported
    reasons, the log entries and how the run ends. *)
Definition observe (o : outcome unit) : ending * list seen * list str :=
  (ending_of o, attempts_seen (stdout (world_of o)), logfile (world_of o)).

(** Two worlds an observer cannot tell apart. *)
Definition same_view (w1 w2 : world) : Prop :=
  attempts_seen (stdout w1) = attempts_seen (stdout w2) /\
  logfile w1 = logfile w2 /\ clock w1 = clock w2 /\ ticks w1 = ticks w2.

(** The run dies of an interrupt. *)
Definition interrupted (o : outcome unit) : Prop :=
  exists rest w, o = Raised Interrupted rest w.

(** What the script of v1.0 does once a rejected attempt has been reported
    (lines 157-175 and the next iterations). *)
Definition after_rejection_v1 (lower_full : str -> nat -> str) (attempts score : Z)
  : io unit :=
  bind (V1.retry_loop lower_full attempts score)
    (fun _ => V1.script_loop lower_full attempts).

(** ** Sample inputs *)

(** A case table that leaves every code point beyond ASCII as it is. *)
Definition plain_lower : str -> nat -> str :=
  fun whole i => match nth_error whole i with Some c => [c] | None => [] end.

(** An empty terminal and log file, and a clock stopped at noon. *)
Definition noon : world :=
  mkWorld [] [] (fun _ => u "2025-10-16T12:00:00") 0.

(** Two full checks: an accepted password, a yes to another check, then a
    rejected password and two refusals. *)
Definition two_checks : list event :=
  [Line (u "Str0ng!Pass"); Line (u "y"); Line (u "short1"); Line (u "n");
   Line (u "n")].

(** One check: a rejection, an answer that is none, a yes, then an accepted
    password. *)
Definition one_check : list event :=
  [Line (u "short1"); Line (u "maybe"); Line (u "y"); Line (u "Str0ng!Pass")].

(** ** Rounds of the password reader *)

(** A round of [safe_getpass] that an interrupt sends back to the start of
    its loop: the interrupt meets [getpass], or [getpass] fails and the
    interrupt meets the [input] of the fallback. *)
Inductive round :=
| InterruptedGetpass
| InterruptedInput.

Definition round_events (r : round) : list event :=
  match r with
  | InterruptedGetpass => [Interrupt]
  | InterruptedInput => [Failure; Interrupt]
  end.

(** What [safe_getpass] displays in such a round. *)
Definition round_outputs (p : prompt) (r : round) : list output :=
  match r with
  | InterruptedGetpass => [Ask p; Say InterruptedTryAgain]
  | InterruptedInput => [Ask p; Say VisibleInput; Ask p; Say InterruptedTryAgain]
  end.

(** The log file and the clock of [w'] are those of [w]. *)
Definition same_log (w w' : world) : Prop :=
  logfile w' = logfile w /\ clock w' = clock w /\ ticks w' = ticks w.

(** The messages of v1.0 in the wording of v2.0. *)
Definition reword (o : output) : output :=
  match o with
  | Say InterruptedTypePassword => Say InterruptedTryAgain
  | Say VisibleInputV1 => Say VisibleInput
  | Say HeyNotYesNo => Say NotYesNo
  | _ => o
  end.

Definition reword_world (w : world) : world :=
  mkWorld (map reword (stdout w)) (logfile w) (clock w) (ticks w).

Definition map_world {A} (f : world -> world) (o : outcome A) : outcome A :=
  match o with
  | Returned a rest w => Returned a rest (f w)
  | Waiting w => Waiting (f w)
  | Raised e rest w => Raised e rest (f w)
  end.

(** [c] is the ASCII letter [t], in lower or in upper case. *)
Definition caseless (c t : char) : Prop :=
  (97 <= t <= 122)%N /\ (c = t \/ (c + 32)%N = t).

(** [s] spells the lowercase word [word], letter by letter, in any mix of
    cases. *)
Definition spells (s word : str) : Prop := Forall2 caseless s word.

(** ** Sessions *)

(** The scores and ratings of the score lines among the outputs. *)
Definition scores_of (os : list output) : list (Z * str) :=
  flat_map (fun o => match o with
                     | Say (ScoreLine _ score rating) => [(score, rating)]
                     | _ => []
                     end) os.

(** From [w] to [w'] a session has been closed.  With the score lines
    [seed] already displayed and the attempt count at [a] before them, the
    outputs [os] have been added, and one log line has been written at the
    current reading of the clock: it counts one attempt for each score line
    and carries the score and the rating of the last one. *)
Definition closes (a : Z) (seed : list (Z * str)) (w w' : world) : Prop :=
  exists os sc s,
    stdout w' = stdout w ++ os /\
    seed ++ scores_of os = sc ++ [(s, V2.rating_from_score s)] /\
    logfile w' = logfile w ++
      [log_line (clock w (ticks w))
         (a + Z.of_nat (length (seed ++ scores_of os))) s (V2.rating_from_score s)] /\
    clock w' = clock w /\ ticks w' = S (ticks w).

(** [rest] is what is left of [ins] once its first events have been read. *)
Definition suffix (rest ins : list event) : Prop :=
  exists used, ins = used ++ rest.

(** What a session may come to on the events [ins]: it ends, by a return or
    by [SystemExit(0)], having closed and having read the events in their
    order; or it waits or dies with the log file and the clock untouched, and
    it dies of an exception other than an interrupt only when a read has
    failed. *)
Definition session_ok (a : Z) (seed : list (Z * str)) (ins : list event)
    (w : world) (o : outcome unit) : Prop :=
  match o with
  | Returned _ rest w' => closes a seed w w' /\ suffix rest ins
  | Raised (SystemExit code) rest w' =>
      code = 0 /\ closes a seed w w' /\ suffix rest ins
  | Raised Interrupted _ w' => same_log w w'
  | Raised OtherError _ w' => same_log w w' /\ In Failure ins
  | Waiting w' => same_log w w'
  end.


(** What is read before a password without counting as an attempt: a blank
    line or an interrupt. *)
Definition uncounted (e : event) : Prop :=
  e = Interrupt \/ exists s, e = Line s /\ whitespace_only s.

(** A rejected password followed by a yes to the retry prompt. *)
Definition retried (lower_full : str -> nat -> str) (try : str * str) : Prop :=
  ~ whitespace_only (fst try) /\
  V2.score_password_default (fst try) <> 5 /\
  says_yes lower_full (snd try).

Definition try_events (try : str * str) : list event :=
  [Line (fst try); Line (snd try)].

(** The place of a rule in the validation chain, from 0. *)
Definition rank (r : reason) : Z :=
  match r with
  | TooShort => 0
  | NoUppercase => 1
  | NoLowercase => 2
  | NoDigit => 3
  | NoSymbol => 4
  end.

(** * Properties *)

(** ** The patterns *)

Lemma re_search_contains p s :
  re_search p s = true <-> contains (fun c => class_matches p c = true) s.
Proof. unfold re_search, contains. apply existsb_exists. Qed.

Lemma class_upper c : class_matches pat_upper c = true <-> ascii_uppercase c.
Proof.
  unfold ascii_uppercase. cbn. rewrite orb_false_r, andb_true_iff, !N.leb_le.
  reflexivity.
Qed.

Lemma class_lower c : class_matches pat_lower c = true <-> ascii_lowercase c.
Proof.
  unfold ascii_lowercase. cbn. rewrite orb_false_r, andb_true_iff, !N.leb_le.
  reflexivity.
Qed.

Lemma class_digit c : class_matches pat_digit c = true <-> ascii_digit c.
Proof.
  unfold ascii_digit. cbn. rewrite orb_false_r, andb_true_iff, !N.leb_le.
  reflexivity.
Qed.

Lemma class_symbols c : class_matches pat_symbols c = true <-> symbol c.
Proof.
  unfold symbol, class_matches, pat_symbols. cbn.
  rewrite !orb_true_iff, !N.eqb_eq.
  intuition (try discriminate; auto 10).
Qed.

Lemma contains_ext (P Q : char -> Prop) s :
  (forall c, P c <-> Q c) -> contains P s <-> contains Q s.
Proof.
  intros H. unfold contains.
  split; intros [c [Hin Hc]]; exists c; split; auto; apply H; exact Hc.
Qed.

Lemma search_upper s : re_search pat_upper s = true <-> rule NoUppercase s.
Proof. rewrite re_search_contains. apply contains_ext, class_upper. Qed.

Lemma search_lower s : re_search pat_lower s = true <-> rule NoLowercase s.
Proof. rewrite re_search_contains. apply contains_ext, class_lower. Qed.

Lemma search_digit s : re_search pat_digit s = true <-> rule NoDigit s.
Proof. rewrite re_search_contains. apply contains_ext, class_digit. Qed.

Lemma search_symbols s : re_search pat_symbols s = true <-> rule NoSymbol s.
Proof. rewrite re_search_contains. apply contains_ext, class_symbols. Qed.

Lemma length_rule s : (len s >=? 8) = true <-> rule TooShort s.
Proof. cbn. rewrite Z.geb_le. reflexivity. Qed.

(** ** The scorer *)

Lemma inline_score_eq password :
  V1.inline_score password = V2.score_password_default password.
Proof. reflexivity. Qed.

Lemma score_password_range password :
  0 <= V2.score_password_default password <= 5.
Proof.
  unfold V2.score_password_default, V2.score_password.
  destruct (len password >=? 8), (re_search pat_upper password),
    (re_search pat_lower password), (re_search pat_digit password),
    (re_search pat_symbols password); cbn; lia.
Qed.

(** C1: for every string the default call of [score_password] returns the
    number of rules met, each rule counted once and on its own: length at
    least 8, an ASCII uppercase letter, an ASCII lowercase letter, an ASCII
    digit, a character of [@$!%*?&].  The result lies between 0 and 5, the
    empty string scores 0, and both places of v1.0 that compute the score
    inline compute the same number. *)
Theorem score_password_counts_rules (password : str) :
  (exists b1 b2 b3 b4 b5 : bool,
     (b1 = true <-> 8 <= len password) /\
     (b2 = true <-> contains ascii_uppercase password) /\
     (b3 = true <-> contains ascii_lowercase password) /\
     (b4 = true <-> contains ascii_digit password) /\
     (b5 = true <-> contains symbol password) /\
     V2.score_password_default password
       = Z.b2z b1 + Z.b2z b2 + Z.b2z b3 + Z.b2z b4 + Z.b2z b5) /\
  0 <= V2.score_password_default password <= 5 /\
  V2.score_password_default [] = 0 /\
  V1.inline_score password = V2.score_password_default password.
Proof.
  split; [|split; [|split; reflexivity]].
  - exists (len password >=? 8), (re_search pat_upper password),
      (re_search pat_lower password), (re_search pat_digit password),
      (re_search pat_symbols password).
    repeat split; try apply length_rule; try apply search_upper;
      try apply search_lower; try apply search_digit; try apply search_symbols.
    unfold V2.score_password_default, V2.score_password.
    destruct (len password >=? 8), (re_search pat_upper password),
      (re_search pat_lower password), (re_search pat_digit password),
      (re_search pat_symbols password); reflexivity.
  - apply score_password_range.
Qed.

(** ** The rating mapper *)

Lemma show_rating_on_range (s : Z) ins w : 0 <= s <= 5 ->
  V1.show_rating s ins w =
  print (ScoreLine (if s =? 5 then Green else Yellow) s (V2.rating_from_score s)) ins w.
Proof.
  intros Hs. unfold V1.show_rating, V2.rating_from_score.
  assert (s = 0 \/ s = 1 \/ s = 2 \/ s = 3 \/ s = 4 \/ s = 5) as Hcases by lia.
  repeat (destruct Hcases as [->|Hcases]; [reflexivity|]).
  subst s. reflexivity.
Qed.

(** C2: on the scores 0 to 5, [rating_from_score] answers "Strong" at 5,
    "Medium" at 3 and 4 and "Weak" at 0, 1 and 2, and these cases cover the
    range.  The rating v1.0 writes to the log and the one it displays are the
    same function there. *)
Theorem rating_from_score_on_range (s : Z) :
  0 <= s <= 5 ->
  (s = 5 -> V2.rating_from_score s = u "Strong") /\
  (s = 3 \/ s = 4 -> V2.rating_from_score s = u "Medium") /\
  (s = 0 \/ s = 1 \/ s = 2 -> V2.rating_from_score s = u "Weak") /\
  (s = 5 \/ (s = 3 \/ s = 4) \/ (s = 0 \/ s = 1 \/ s = 2)) /\
  V1.logged_rating s = V2.rating_from_score s /\
  (forall ins w,
     V1.show_rating s ins w =
     print (ScoreLine (if s =? 5 then Green else Yellow) s (V2.rating_from_score s))
       ins w).
Proof.
  intros Hs. repeat split.
  - intros ->. reflexivity.
  - intros [-> | ->]; reflexivity.
  - intros [-> | [-> | ->]]; reflexivity.
  - lia.
  - intros ins w. apply show_rating_on_range, Hs.
Qed.

(** C10: [rating_from_score] is defined on every integer: "Strong" exactly
    at 5, "Medium" at every other integer from 3 upwards, 6 and beyond
    included, and "Weak" at every integer below 3, the negative ones
    included. *)
Theorem rating_from_score_total (n : Z) :
  (V2.rating_from_score n = u "Strong" <-> n = 5) /\
  (V2.rating_from_score n = u "Medium" <-> 3 <= n /\ n <> 5) /\
  (V2.rating_from_score n = u "Weak" <-> n < 3).
Proof.
  unfold V2.rating_from_score.
  destruct (Z.eqb_spec n 5) as [->|Hn5].
  - cbn. repeat split; try discriminate; try lia; intros; lia.
  - destruct (n >=? 3) eqn:Hge.
    + apply Z.geb_le in Hge.
      repeat split; try discriminate; try lia; intros; lia.
    + assert (n < 3) by (rewrite Z.geb_leb, Z.leb_gt in Hge; lia).
      repeat split; try discriminate; try lia; intros; lia.
Qed.

(** ** The validation chain *)

Lemma feedback_versions password : V1.feedback password = V2.feedback password.
Proof. reflexivity. Qed.

Lemma ltb_8_rule s : (len s <? 8) = false <-> rule TooShort s.
Proof. cbn. rewrite Z.ltb_ge. reflexivity. Qed.

Lemma negb_false_true b : negb b = false <-> b = true.
Proof. destruct b; intuition discriminate. Qed.

Ltac chain_step H lem :=
  lazymatch type of H with
  | (if ?c then _ else _) = _ =>
      let E := fresh "E" in
      destruct c eqn:E;
      [ | first [apply lem in E | apply negb_false_true in E; apply lem in E] ]
  end.

Lemma feedback_first_unmet password r :
  V2.feedback password = Some r -> first_unmet r password.
Proof.
  unfold V2.feedback, first_unmet. intros H.
  chain_step H ltb_8_rule.
  { injection H as <-. exists [], [NoUppercase; NoLowercase; NoDigit; NoSymbol].
    repeat split; auto. intros Hr. apply ltb_8_rule in Hr. congruence. }
  chain_step H search_upper.
  { injection H as <-. exists [TooShort], [NoLowercase; NoDigit; NoSymbol].
    repeat split; auto. intros Hr. apply search_upper in Hr.
    rewrite Hr in E0. discriminate. }
  chain_step H search_lower.
  { injection H as <-. exists [TooShort; NoUppercase], [NoDigit; NoSymbol].
    repeat split; auto. intros Hr. apply search_lower in Hr.
    rewrite Hr in E1. discriminate. }
  chain_step H search_digit.
  { injection H as <-. exists [TooShort; NoUppercase; NoLowercase], [NoSymbol].
    repeat split; auto. intros Hr. apply search_digit in Hr.
    rewrite Hr in E2. discriminate. }
  chain_step H search_symbols.
  { injection H as <-. exists [TooShort; NoUppercase; NoLowercase; NoDigit], [].
    repeat split; auto 6. intros Hr. apply search_symbols in Hr.
    rewrite Hr in E3. discriminate. }
  discriminate.
Qed.

Lemma feedback_none password :
  V2.feedback password = None <-> Forall (fun r => rule r password) priority.
Proof.
  unfold V2.feedback, priority. split.
  - intros H.
    chain_step H ltb_8_rule; [discriminate|].
    chain_step H search_upper; [discriminate|].
    chain_step H search_lower; [discriminate|].
    chain_step H search_digit; [discriminate|].
    chain_step H search_symbols; [discriminate|].
    auto 6.
  - intros H.
    inversion_clear H as [|? ? H1 H']. inversion_clear H' as [|? ? H2 H].
    inversion_clear H as [|? ? H3 H']. inversion_clear H' as [|? ? H4 H].
    inversion_clear H as [|? ? H5 _].
    apply ltb_8_rule in H1. apply search_upper in H2. apply search_lower in H3.
    apply search_digit in H4. apply search_symbols in H5.
    rewrite H1, H2, H3, H4, H5. reflexivity.
Qed.

Lemma feedback_none_score password :
  V2.feedback password = None <-> V2.score_password_default password = 5.
Proof.
  unfold V2.feedback, V2.score_password_default, V2.score_password.
  rewrite Z.geb_leb, Z.leb_antisym.
  destruct (len password <? 8), (re_search pat_upper password),
    (re_search pat_lower password), (re_search pat_digit password),
    (re_search pat_symbols password); cbn; split; (discriminate || reflexivity).
Qed.

Lemma score_5_all_rules password :
  V2.score_password_default password = 5 <->
  Forall (fun r => rule r password) priority.
Proof. rewrite <- feedback_none_score. apply feedback_none. Qed.

(** ** Blank input *)

Lemma lstrip_nil s : lstrip s = [] <-> whitespace_only s.
Proof.
  unfold whitespace_only. induction s as [|c s IH]; cbn.
  - split; auto.
  - destruct (is_whitespace c) eqn:Hc.
    + rewrite IH. split; [auto | intros H; inversion H; auto].
    + split; [discriminate | intros H; inversion H; congruence].
Qed.

Lemma lstrip_whitespace s : whitespace_only (lstrip s) -> whitespace_only s.
Proof.
  unfold whitespace_only. induction s as [|c s IH]; cbn; auto.
  destruct (is_whitespace c) eqn:Hc; auto.
Qed.

Lemma strip_nil s : strip s = [] <-> whitespace_only s.
Proof.
  unfold strip, rstrip. split.
  - intros H. apply (f_equal (@rev char)) in H. rewrite rev_involutive in H.
    cbn in H. apply lstrip_nil in H. apply lstrip_whitespace.
    unfold whitespace_only in *. apply Forall_rev in H.
    rewrite rev_involutive in H. exact H.
  - intros H. apply lstrip_nil in H. rewrite H. reflexivity.
Qed.

Lemma is_blank_whitespace password :
  V2.is_blank password = true <-> whitespace_only password.
Proof.
  unfold V2.is_blank. rewrite <- strip_nil.
  destruct (strip password); intuition discriminate.
Qed.

Lemma is_blank_versions password : V1.is_blank password = V2.is_blank password.
Proof. reflexivity. Qed.

(** ** One iteration of the session loop *)

Lemma world_eq (w1 w2 : world) :
  stdout w1 = stdout w2 -> logfile w1 = logfile w2 -> clock w1 = clock w2 ->
  ticks w1 = ticks w2 -> w1 = w2.
Proof. destruct w1, w2; cbn; intros; subst; reflexivity. Qed.

Ltac same_world :=
  apply world_eq;
  cbn [stdout logfile clock ticks display shows logged rejected accepted
       accepted_v1 declined];
  rewrite <- ?app_assoc; reflexivity.

Ltac run_io :=
  cbv [bind print ret raise V2.spinner V2.log_attempt V1.write_log
       isoformat_now append_log].

Section Session.
Variable lower_full : str -> nat -> str.

Local Abbreviation ask_yes_no := (V2.ask_yes_no lower_full).
Local Abbreviation run_password_check_body := (V2.run_password_check_body lower_full).
Local Abbreviation run_password_check_loop := (V2.run_password_check_loop lower_full).

Lemma body_blank attempts password rest w :
  V2.is_blank password = true ->
  run_password_check_body attempts (Line password :: rest) w =
  Returned (Continue attempts) rest (shows [Ask PasswordPrompt; Say EmptyInput] w).
Proof.
  intros Hb. unfold V2.run_password_check_body, bind at 1.
  cbn [V2.safe_getpass]. rewrite Hb. run_io. f_equal. same_world.
Qed.

Lemma body_accepted attempts password rest w :
  V2.is_blank password = false ->
  V2.feedback password = None ->
  run_password_check_body attempts (Line password :: rest) w =
  Returned Break rest (accepted (attempts + 1) w).
Proof.
  intros Hb Hf. unfold V2.run_password_check_body, bind at 1.
  cbn [V2.safe_getpass]. rewrite Hb, Hf.
  apply feedback_none_score in Hf. rewrite Hf.
  run_io. f_equal. same_world.
Qed.

Lemma body_rejected attempts password r rest w :
  V2.is_blank password = false ->
  V2.feedback password = Some r ->
  run_password_check_body attempts (Line password :: rest) w =
  match ask_yes_no RetryPrompt rest (rejected r password w) with
  | Returned true rest' w' =>
      Returned (Continue (attempts + 1)) rest' (shows [Say BlankLine] w')
  | Returned false rest' w' =>
      Returned Break rest'
        (shows [Say LogSaved]
           (logged (attempts + 1) (V2.score_password_default password)
              (V2.rating_from_score (V2.score_password_default password))
              (shows [Say AllDone; Say (ThankYou (attempts + 1))] w')))
  | Waiting w' => Waiting w'
  | Raised e rest' w' => Raised e rest' w'
  end.
Proof.
  intros Hb Hf. unfold V2.run_password_check_body, bind at 1.
  cbn [V2.safe_getpass]. rewrite Hb, Hf.
  unfold bind at 1. cbn [print]. unfold bind at 1. cbn [V2.spinner print].
  unfold bind at 1. cbn [print]. unfold bind at 1. cbn [print].
  unfold bind at 1.
  replace (display _ (display _ (display _ (display _ (display _ w)))))
    with (rejected r password w) by same_world.
  destruct (ask_yes_no RetryPrompt rest (rejected r password w))
    as [[|] rest' w'| |]; try reflexivity.
  run_io. cbn [negb]. f_equal. same_world.
Qed.

Lemma str_in_In x l : str_in x l = true <-> In x l.
Proof.
  unfold str_in. rewrite existsb_exists. unfold str_eqb.
  split.
  - intros [y [Hy Heq]]. destruct (list_eq_dec N.eq_dec x y); congruence.
  - intros H. exists x. split; auto.
    destruct (list_eq_dec N.eq_dec x x); congruence.
Qed.

Lemma yes_excludes_no ans : says_yes lower_full ans -> ~ says_no lower_full ans.
Proof.
  unfold says_yes, says_no. intros [H|[H|[]]] [H'|[H'|[]]];
    rewrite <- H in H'; discriminate.
Qed.

Lemma str_in_false x l : str_in x l = false <-> ~ In x l.
Proof.
  rewrite <- str_in_In. destruct (str_in x l); intuition congruence.
Qed.

Lemma ask_yes_no_yes p ans rest w :
  says_yes lower_full ans ->
  ask_yes_no p (Line ans :: rest) w = Returned true rest (shows [Ask p] w).
Proof.
  intros H. apply str_in_In in H. cbn [V2.ask_yes_no].
  unfold normalised, V2.valid_yes in *. rewrite H. reflexivity.
Qed.

Lemma ask_yes_no_no p ans rest w :
  says_no lower_full ans ->
  ask_yes_no p (Line ans :: rest) w = Returned false rest (shows [Ask p] w).
Proof.
  intros H.
  assert (~ says_yes lower_full ans) as Hy
    by (intros Hy; exact (yes_excludes_no _ Hy H)).
  apply str_in_In in H. apply str_in_false in Hy. cbn [V2.ask_yes_no].
  unfold normalised, V2.valid_yes, V2.valid_no in *. rewrite Hy, H. reflexivity.
Qed.

Lemma ask_yes_no_invalid p ans rest w :
  ~ says_yes lower_full ans -> ~ says_no lower_full ans ->
  ask_yes_no p (Line ans :: rest) w =
  ask_yes_no p rest (shows [Ask p; Say NotYesNo] w).
Proof.
  intros Hy Hn. apply str_in_false in Hy, Hn. cbn [V2.ask_yes_no].
  unfold normalised, V2.valid_yes, V2.valid_no in *. rewrite Hy, Hn.
  f_equal. same_world.
Qed.

Lemma ask_yes_no_interrupt p rest w :
  ask_yes_no p (Interrupt :: rest) w =
  ask_yes_no p rest (shows [Ask p; Say InterruptedTypeYesNo] w).
Proof. cbn [V2.ask_yes_no]. f_equal. same_world. Qed.

(** *** The same iteration in v1.0 *)

Local Abbreviation retry_loop := (V1.retry_loop lower_full).
Local Abbreviation script_body := (V1.script_body lower_full).
Local Abbreviation script_loop := (V1.script_loop lower_full).

Lemma retry_loop_yes attempts score ans rest w :
  says_yes lower_full ans ->
  retry_loop attempts score (Line ans :: rest) w =
  Returned tt rest (shows [Ask RetryPrompt; Say BlankLine] w).
Proof.
  intros H. apply str_in_In in H. cbn [V1.retry_loop].
  unfold normalised in H. rewrite H. run_io. f_equal. same_world.
Qed.

Lemma retry_loop_no attempts score ans rest w :
  says_no lower_full ans ->
  retry_loop attempts score (Line ans :: rest) w =
  Raised (SystemExit 0) rest
    (shows [Say LogSaved]
       (logged attempts score (V1.logged_rating score)
          (shows [Ask RetryPrompt; Say AllDone; Say (ThankYou attempts)] w))).
Proof.
  intros H.
  assert (~ says_yes lower_full ans) as Hy
    by (intros Hy; exact (yes_excludes_no _ Hy H)).
  apply str_in_In in H. apply str_in_false in Hy. cbn [V1.retry_loop].
  unfold normalised in *. rewrite Hy, H. run_io. f_equal. same_world.
Qed.

Lemma retry_loop_invalid attempts score ans rest w :
  ~ says_yes lower_full ans -> ~ says_no lower_full ans ->
  retry_loop attempts score (Line ans :: rest) w =
  retry_loop attempts score rest (shows [Ask RetryPrompt; Say HeyNotYesNo] w).
Proof.
  intros Hy Hn. apply str_in_false in Hy, Hn. cbn [V1.retry_loop].
  unfold normalised in *. rewrite Hy, Hn. f_equal. same_world.
Qed.

Lemma script_body_blank attempts password rest w :
  V2.is_blank password = true ->
  script_body attempts (Line password :: rest) w =
  Returned (Continue attempts) rest (shows [Ask PasswordPrompt; Say EmptyInput] w).
Proof.
  intros Hb. unfold V1.script_body, bind at 1.
  cbn [V1.read_password]. rewrite is_blank_versions, Hb. run_io.
  f_equal. same_world.
Qed.

Lemma script_body_accepted attempts password rest w :
  V2.is_blank password = false ->
  V2.feedback password = None ->
  script_body attempts (Line password :: rest) w =
  Returned Break rest (accepted_v1 (attempts + 1) w).
Proof.
  intros Hb Hf. unfold V1.script_body, bind at 1.
  cbn [V1.read_password]. rewrite is_blank_versions, Hb, feedback_versions, Hf.
  apply feedback_none_score in Hf. rewrite inline_score_eq, Hf.
  run_io. cbn. f_equal. same_world.
Qed.

Lemma script_body_rejected attempts password r rest w :
  V2.is_blank password = false ->
  V2.feedback password = Some r ->
  script_body attempts (Line password :: rest) w =
  match retry_loop (attempts + 1) (V2.score_password_default password) rest
          (rejected r password w) with
  | Returned _ rest' w' => Returned (Continue (attempts + 1)) rest' w'
  | Waiting w' => Waiting w'
  | Raised e rest' w' => Raised e rest' w'
  end.
Proof.
  intros Hb Hf. unfold V1.script_body, bind at 1.
  cbn [V1.read_password]. rewrite is_blank_versions, Hb, feedback_versions, Hf.
  rewrite inline_score_eq.
  assert (V2.score_password_default password <> 5) as Hs
    by (rewrite <- feedback_none_score; congruence).
  unfold bind at 1. cbn [print]. unfold bind at 1. cbn [print].
  unfold bind at 1. cbn [print]. unfold bind at 1.
  rewrite show_rating_on_range by apply score_password_range.
  apply Z.eqb_neq in Hs. rewrite Hs. cbn [print]. unfold bind at 1.
  replace (display _ (display _ (display _ (display _ (display _ w)))))
    with (rejected r password w) by same_world.
  destruct (retry_loop _ _ rest (rejected r password w)) as [[] rest' w'| |];
    reflexivity.
Qed.

(** *** The session loop of v2.0 and of v1.0 on a first password *)

Lemma not_blank password : ~ whitespace_only password -> V2.is_blank password = false.
Proof.
  rewrite <- is_blank_whitespace. destruct (V2.is_blank password); congruence.
Qed.

Lemma unmet_rule_feedback password :
  (exists r, ~ rule r password) -> exists r, V2.feedback password = Some r.
Proof.
  intros [r Hr]. destruct (V2.feedback password) as [r'|] eqn:Hf; eauto.
  exfalso. apply Hr. apply feedback_none in Hf.
  rewrite Forall_forall in Hf. apply Hf. destruct r; cbn; auto 6.
Qed.

Lemma loop_blank attempts password rest w :
  V2.is_blank password = true ->
  run_password_check_loop attempts (Line password :: rest) w =
  run_password_check_loop attempts rest (shows [Ask PasswordPrompt; Say EmptyInput] w).
Proof.
  intros Hb. rewrite V2.run_password_check_loop_step, body_blank by exact Hb.
  reflexivity.
Qed.

Lemma script_loop_blank attempts password rest w :
  V2.is_blank password = true ->
  script_loop attempts (Line password :: rest) w =
  script_loop attempts rest (shows [Ask PasswordPrompt; Say EmptyInput] w).
Proof.
  intros Hb. rewrite V1.script_loop_step, script_body_blank by exact Hb.
  reflexivity.
Qed.

Lemma loop_nil attempts w :
  run_password_check_loop attempts [] w = Waiting (shows [Ask PasswordPrompt] w).
Proof. rewrite V2.run_password_check_loop_step. reflexivity. Qed.

Lemma script_loop_nil attempts w :
  script_loop attempts [] w = Waiting (shows [Ask PasswordPrompt] w).
Proof. rewrite V1.script_loop_step. reflexivity. Qed.

Lemma loop_accepted attempts password rest w :
  V2.is_blank password = false -> V2.feedback password = None ->
  run_password_check_loop attempts (Line password :: rest) w =
  Returned tt rest (accepted (attempts + 1) w).
Proof.
  intros Hb Hf. rewrite V2.run_password_check_loop_step, body_accepted; auto.
Qed.

Lemma loop_rejected attempts password r rest w :
  V2.is_blank password = false -> V2.feedback password = Some r ->
  run_password_check_loop attempts (Line password :: rest) w =
  match ask_yes_no RetryPrompt rest (rejected r password w) with
  | Returned true rest' w' =>
      run_password_check_loop (attempts + 1) rest' (shows [Say BlankLine] w')
  | Returned false rest' w' =>
      Returned tt rest'
        (shows [Say LogSaved]
           (logged (attempts + 1) (V2.score_password_default password)
              (V2.rating_from_score (V2.score_password_default password))
              (shows [Say AllDone; Say (ThankYou (attempts + 1))] w')))
  | Waiting w' => Waiting w'
  | Raised e rest' w' => Raised e rest' w'
  end.
Proof.
  intros Hb Hf.
  rewrite V2.run_password_check_loop_step, (body_rejected _ _ r) by assumption.
  destruct (ask_yes_no RetryPrompt rest (rejected r password w))
    as [[|] rest' w'| |]; reflexivity.
Qed.

Lemma script_loop_accepted attempts password rest w :
  V2.is_blank password = false -> V2.feedback password = None ->
  script_loop attempts (Line password :: rest) w =
  Returned tt rest (accepted_v1 (attempts + 1) w).
Proof.
  intros Hb Hf. rewrite V1.script_loop_step, script_body_accepted; auto.
Qed.

Lemma script_loop_rejected attempts password r rest w :
  V2.is_blank password = false -> V2.feedback password = Some r ->
  script_loop attempts (Line password :: rest) w =
  match retry_loop (attempts + 1) (V2.score_password_default password) rest
          (rejected r password w) with
  | Returned _ rest' w' => script_loop (attempts + 1) rest' w'
  | Waiting w' => Waiting w'
  | Raised e rest' w' => Raised e rest' w'
  end.
Proof.
  intros Hb Hf.
  rewrite V1.script_loop_step, (script_body_rejected _ _ r) by assumption.
  destruct (retry_loop _ _ rest (rejected r password w)) as [[] rest' w'| |];
    reflexivity.
Qed.

(** C7: a blank or whitespace-only line at the password prompt is answered
    by the empty-input message and the prompt again.  The loop goes on with
    the same attempt count, the log file and the clock are untouched, and no
    blocking reason or score line is displayed; v1.0 does the same. *)
Theorem blank_input_reprompts attempts password rest w :
  whitespace_only password ->
  exists w',
    run_password_check_loop attempts (Line password :: rest) w =
      run_password_check_loop attempts rest w' /\
    script_loop attempts (Line password :: rest) w =
      script_loop attempts rest w' /\
    stdout w' = stdout w ++ [Ask PasswordPrompt; Say EmptyInput] /\
    logfile w' = logfile w /\ clock w' = clock w /\ ticks w' = ticks w /\
    run_password_check_loop attempts [] w' = Waiting (shows [Ask PasswordPrompt] w') /\
    script_loop attempts [] w' = Waiting (shows [Ask PasswordPrompt] w').
Proof.
  intros Hw. apply is_blank_whitespace in Hw.
  exists (shows [Ask PasswordPrompt; Say EmptyInput] w).
  split; [apply loop_blank, Hw|].
  split; [apply script_loop_blank, Hw|].
  split; [reflexivity|]. split; [reflexivity|].
  split; [reflexivity|]. split; [reflexivity|].
  split; [apply loop_nil | apply script_loop_nil].
Qed.

(** C3: when a submitted password leaves a rule unmet, exactly one
    blocking reason is displayed, the first unmet rule in the order length,
    uppercase, lowercase, digit, symbol, whatever else fails; then the score
    line and the retry prompt follow.  For "lowercase!", which has neither an
    uppercase letter nor a digit, the reason is the uppercase letter. *)
Theorem first_unmet_rule_is_reported attempts password w :
  ~ whitespace_only password ->
  (exists r, ~ rule r password) ->
  (exists r w',
     first_unmet r password /\
     V2.feedback password = Some r /\ V1.feedback password = Some r /\
     run_password_check_loop attempts [Line password] w = Waiting w' /\
     script_loop attempts [Line password] w = Waiting w' /\
     stdout w' = stdout w ++
       [Ask PasswordPrompt; Say CheckingStrength; Say Spinner; Say (Blocking r);
        Say (ScoreLine Yellow (V2.score_password_default password)
               (V2.rating_from_score (V2.score_password_default password)));
        Ask RetryPrompt] /\
     reasons (stdout w') = reasons (stdout w) ++ [r]) /\
  ~ rule NoUppercase (u "lowercase!") /\ ~ rule NoDigit (u "lowercase!") /\
  first_unmet NoUppercase (u "lowercase!") /\
  V2.feedback (u "lowercase!") = Some NoUppercase.
Proof.
  intros Hw Hr. apply not_blank in Hw.
  destruct (unmet_rule_feedback _ Hr) as [r Hf]. split.
  - exists r, (shows [Ask RetryPrompt] (rejected r password w)).
    split; [apply feedback_first_unmet, Hf|].
    split; [exact Hf|]. split; [exact Hf|].
    split; [rewrite (loop_rejected _ _ r) by assumption; reflexivity|].
    split; [rewrite (script_loop_rejected _ _ r) by assumption; reflexivity|].
    split.
    + cbn. rewrite <- app_assoc. reflexivity.
    + cbn. unfold reasons. rewrite <- app_assoc, flat_map_app. reflexivity.
  - split; [rewrite <- search_upper; cbn; discriminate|].
    split; [rewrite <- search_digit; cbn; discriminate|].
    split; [apply feedback_first_unmet|]; reflexivity.
Qed.

(** C4: a non-blank password is accepted exactly when it meets the five
    rules, that is when its score is 5.  Then the success message, the score
    line "5/5 Strong" and one log line with score 5 and rating Strong follow
    and the loop is left.  Otherwise the blocking reason and the score line
    are displayed, nothing is logged and the retry prompt is shown.
    "Str0ng!Pass" scores 5; "short1" is too short and scores 2, Weak. *)
Theorem accepted_iff_score_5 attempts password rest w :
  ~ whitespace_only password ->
  (V2.score_password_default password = 5 <->
   Forall (fun r => rule r password) priority) /\
  ((exists w', run_password_check_loop attempts [Line password] w = Returned tt [] w')
   <-> V2.score_password_default password = 5) /\
  (V2.score_password_default password = 5 ->
   exists w' w1',
     run_password_check_loop attempts (Line password :: rest) w = Returned tt rest w' /\
     stdout w' = stdout w ++
       [Ask PasswordPrompt; Say CheckingStrength; Say Spinner;
        Say (Hurray (attempts + 1)); Say (ScoreLine Green 5 (u "Strong"));
        Say LogSaved; Say AllDone] /\
     logfile w' = logfile w ++
       [log_line (clock w (ticks w)) (attempts + 1) 5 (u "Strong")] /\
     script_loop attempts (Line password :: rest) w = Returned tt rest w1' /\
     stdout w1' = stdout w ++
       [Ask PasswordPrompt; Say CheckingStrength; Say Spinner;
        Say (ScoreLine Green 5 (u "Strong")); Say (Hurray (attempts + 1));
        Say LogSaved; Say AllDone] /\
     logfile w1' = logfile w') /\
  (V2.score_password_default password <> 5 ->
   exists r w',
     first_unmet r password /\
     run_password_check_loop attempts [Line password] w = Waiting w' /\
     script_loop attempts [Line password] w = Waiting w' /\
     stdout w' = stdout w ++
       [Ask PasswordPrompt; Say CheckingStrength; Say Spinner; Say (Blocking r);
        Say (ScoreLine Yellow (V2.score_password_default password)
               (V2.rating_from_score (V2.score_password_default password)));
        Ask RetryPrompt] /\
     logfile w' = logfile w) /\
  (V2.score_password_default (u "Str0ng!Pass") = 5 /\
   V2.rating_from_score 5 = u "Strong" /\
   forall ts, log_line ts 1 5 (u "Strong")
              = ts ++ u " | attempts=1 | score=5/5 | rating=Strong" ++ [10%N]) /\
  (V2.feedback (u "short1") = Some TooShort /\
   V2.score_password_default (u "short1") = 2 /\
   V2.rating_from_score 2 = u "Weak").
Proof.
  intros Hw. apply not_blank in Hw.
  assert (V2.score_password_default password <> 5 ->
          exists r, V2.feedback password = Some r) as Hrej.
  { intros Hs. destruct (V2.feedback password) as [r|] eqn:Hf; eauto.
    apply feedback_none_score in Hf. contradiction. }
  split; [apply score_5_all_rules|].
  split; [split|].
  - intros [w' Hrun].
    destruct (Z.eq_dec (V2.score_password_default password) 5) as [|Hs]; auto.
    destruct (Hrej Hs) as [r Hf].
    rewrite (loop_rejected _ _ r) in Hrun by assumption. discriminate.
  - intros Hs. apply feedback_none_score in Hs. eexists.
    apply loop_accepted; assumption.
  - split; [|split; [|split]].
    + intros Hs. apply feedback_none_score in Hs.
      exists (accepted (attempts + 1) w), (accepted_v1 (attempts + 1) w).
      split; [apply loop_accepted; assumption|].
      split; [cbn; rewrite <- !app_assoc; reflexivity|].
      split; [reflexivity|].
      split; [apply script_loop_accepted; assumption|].
      split; [cbn; rewrite <- !app_assoc; reflexivity | reflexivity].
    + intros Hs. destruct (Hrej Hs) as [r Hf].
      exists r, (shows [Ask RetryPrompt] (rejected r password w)).
      split; [apply feedback_first_unmet, Hf|].
      split; [rewrite (loop_rejected _ _ r) by assumption; reflexivity|].
      split; [rewrite (script_loop_rejected _ _ r) by assumption; reflexivity|].
      split; [cbn; rewrite <- app_assoc|]; reflexivity.
    + repeat split; intros; reflexivity.
    + repeat split; reflexivity.
Qed.

(** C8: after a rejected attempt the retry prompt is shown.  On a "no" the
    loop is left and exactly one log line is appended, with the count, the
    score and the rating of that last attempt; on a "yes" the loop goes on
    with nothing logged.  (v1.0 leaves through [SystemExit(0)].) *)
Theorem retry_answer_after_rejection attempts password ans rest w :
  ~ whitespace_only password ->
  V2.score_password_default password <> 5 ->
  exists r,
    first_unmet r password /\
    (says_no lower_full ans ->
     exists w',
       run_password_check_loop attempts (Line password :: Line ans :: rest) w
         = Returned tt rest w' /\
       script_loop attempts (Line password :: Line ans :: rest) w
         = Raised (SystemExit 0) rest w' /\
       stdout w' = stdout (rejected r password w) ++
         [Ask RetryPrompt; Say AllDone; Say (ThankYou (attempts + 1)); Say LogSaved] /\
       logfile w' = logfile w ++
         [log_line (clock w (ticks w)) (attempts + 1)
            (V2.score_password_default password)
            (V2.rating_from_score (V2.score_password_default password))]) /\
    (says_yes lower_full ans ->
     exists w',
       run_password_check_loop attempts (Line password :: Line ans :: rest) w
         = run_password_check_loop (attempts + 1) rest w' /\
       script_loop attempts (Line password :: Line ans :: rest) w
         = script_loop (attempts + 1) rest w' /\
       stdout w' = stdout (rejected r password w) ++ [Ask RetryPrompt; Say BlankLine] /\
       logfile w' = logfile w /\ ticks w' = ticks w).
Proof.
  intros Hw Hs. apply not_blank in Hw.
  destruct (V2.feedback password) as [r|] eqn:Hf;
    [|apply feedback_none_score in Hf; contradiction].
  exists r. split; [apply feedback_first_unmet, Hf|]. split.
  - intros Hno. exists (declined (attempts + 1) r password w).
    split; [|split; [|split]].
    + rewrite (loop_rejected _ _ r), ask_yes_no_no by assumption.
      f_equal. same_world.
    + rewrite (script_loop_rejected _ _ r), retry_loop_no by assumption.
      reflexivity.
    + cbn. rewrite <- !app_assoc. reflexivity.
    + reflexivity.
  - intros Hyes.
    exists (shows [Ask RetryPrompt; Say BlankLine] (rejected r password w)).
    split; [|split; [|split; [|split]]]; try reflexivity.
    + rewrite (loop_rejected _ _ r), ask_yes_no_yes by assumption.
      f_equal. same_world.
    + rewrite (script_loop_rejected _ _ r), retry_loop_yes by assumption.
      reflexivity.
Qed.

(** *** The yes/no reader *)

Lemma ask_yes_no_skips p pre : forall tail w,
  Forall (invalid lower_full) pre ->
  ask_yes_no p (pre ++ tail) w = ask_yes_no p tail (shows (reprompts p pre) w).
Proof.
  induction pre as [|e pre IH]; intros tail w Hpre.
  - cbn. f_equal. apply world_eq; cbn; auto using app_nil_r.
  - inversion_clear Hpre as [|? ? He Hpre']. rewrite <- app_comm_cons.
    destruct e as [ans| |]; [destruct He as [Hy Hn]| |destruct He].
    + rewrite ask_yes_no_invalid, IH by assumption. f_equal. same_world.
    + rewrite ask_yes_no_interrupt, IH by assumption. f_equal. same_world.
Qed.

Lemma ask_yes_no_returned p ins : forall w b rest w',
  ask_yes_no p ins w = Returned b rest w' ->
  exists pre ans,
    ins = pre ++ Line ans :: rest /\ Forall (invalid lower_full) pre /\
    if b then says_yes lower_full ans else says_no lower_full ans.
Proof.
  induction ins as [|[ans| |] ins IH]; cbn [V2.ask_yes_no];
    intros w b rest w' H; try discriminate.
  - destruct (str_in _ V2.valid_yes) eqn:Hy.
    { injection H as <- <- _. exists [], ans. repeat split; auto.
      apply str_in_In in Hy. exact Hy. }
    destruct (str_in _ V2.valid_no) eqn:Hn.
    { injection H as <- <- _. exists [], ans. repeat split; auto.
      apply str_in_In in Hn. exact Hn. }
    apply IH in H. destruct H as [pre [ans' [-> [Hpre Hb]]]].
    exists (Line ans :: pre), ans'. repeat split; auto.
    constructor; auto. split; apply str_in_false; assumption.
  - apply IH in H. destruct H as [pre [ans' [-> [Hpre Hb]]]].
    exists (Interrupt :: pre), ans'. repeat split; auto. constructor; cbn; auto.
Qed.

(** C9: [ask_yes_no] returns at the first response whose trimmed,
    lowercased form is y, yes, n or no: [True] exactly for y and yes,
    [False] exactly for n and no.  Before it, every other response (and every
    interrupted read) is answered by a complaint and the prompt again, and
    with no valid answer the function is still waiting.  Whenever it returns,
    it has read such a valid answer after invalid ones only. *)
Theorem ask_yes_no_first_valid p pre ans rest w :
  Forall (invalid lower_full) pre ->
  says_yes lower_full ans \/ says_no lower_full ans ->
  (exists b,
     ask_yes_no p (pre ++ Line ans :: rest) w
       = Returned b rest (shows (reprompts p pre ++ [Ask p]) w) /\
     (b = true <-> says_yes lower_full ans) /\
     (b = false <-> says_no lower_full ans)) /\
  ask_yes_no p pre w = Waiting (shows (reprompts p pre ++ [Ask p]) w) /\
  (forall ins b rest' w',
     ask_yes_no p ins w = Returned b rest' w' ->
     exists pre' ans',
       ins = pre' ++ Line ans' :: rest' /\ Forall (invalid lower_full) pre' /\
       if b then says_yes lower_full ans' else says_no lower_full ans').
Proof.
  intros Hpre Hans. split; [|split].
  - rewrite ask_yes_no_skips by assumption. destruct Hans as [Hy|Hn].
    + exists true. rewrite ask_yes_no_yes by assumption.
      split; [f_equal; same_world|]. split; [tauto|].
      split; [discriminate | intros Hn; destruct (yes_excludes_no _ Hy Hn)].
    + exists false. rewrite ask_yes_no_no by assumption.
      split; [f_equal; same_world|]. split; [|tauto].
      split; [discriminate | intros Hy; destruct (yes_excludes_no _ Hy Hn)].
  - rewrite <- (app_nil_r pre) at 1. rewrite ask_yes_no_skips by assumption.
    cbn. f_equal. same_world.
  - intros ins b rest' w'. apply ask_yes_no_returned.
Qed.

End Session.

(** ** What is logged does not depend on the world *)

Lemma stamp_app clk k es1 es2 :
  stamp clk k (es1 ++ es2) = stamp clk k es1 ++ stamp clk (k + length es1) es2.
Proof.
  revert k. induction es1 as [|[[n sc] r] es1 IH]; intros k; cbn.
  - rewrite Nat.add_0_r. reflexivity.
  - rewrite IH. do 3 f_equal. lia.
Qed.

Lemma extends_refl w : extends w w [].
Proof. unfold extends. cbn. rewrite app_nil_r. auto. Qed.

Lemma extends_trans w w1 w2 es1 es2 :
  extends w w1 es1 -> extends w1 w2 es2 -> extends w w2 (es1 ++ es2).
Proof.
  unfold extends. intros (Hl1 & Hc1 & Ht1) (Hl2 & Hc2 & Ht2).
  rewrite Hl2, Hl1, Hc2, Hc1, Ht2, Ht1, stamp_app, length_app, <- app_assoc.
  repeat split; auto. lia.
Qed.

Lemma extends_display o w : extends w (display o w) [].
Proof. unfold extends. cbn. rewrite app_nil_r. auto. Qed.

Lemma extends_shows os w : extends w (shows os w) [].
Proof. unfold extends. cbn. rewrite app_nil_r. auto. Qed.

Lemma extends_logged attempts score rating w :
  extends w (logged attempts score rating w) [(attempts, score, rating)].
Proof. unfold extends. cbn. repeat split. lia. Qed.

Lemma extends_before w w0 w' es :
  extends w w0 [] -> extends w0 w' es -> extends w w' es.
Proof. intros H0 H. exact (extends_trans _ _ _ [] es H0 H). Qed.

Lemma extends_after w w0 w' es :
  extends w w0 es -> extends w0 w' [] -> extends w w' es.
Proof.
  intros H H0. rewrite <- (app_nil_r es). exact (extends_trans _ _ _ _ _ H H0).
Qed.

Lemma runs_ret {A} (a : A) ins : runs (ret a) ins (Returns a ins) [].
Proof. intros w. split; [reflexivity | apply extends_refl]. Qed.

Lemma runs_print m ins : runs (print m) ins (Returns tt ins) [].
Proof. intros w. split; [reflexivity | apply extends_display]. Qed.

Lemma runs_log_attempt attempts score rating ins :
  runs (V2.log_attempt attempts score rating) ins (Returns tt ins)
    [(attempts, score, rating)].
Proof.
  intros w. split; [reflexivity|]. run_io. cbn [world_of].
  apply (extends_after _ (logged attempts score rating w)).
  - apply extends_logged.
  - apply extends_display.
Qed.

Lemma runs_bind {A B} (m : io A) (k : A -> io B) ins a rest es1 t es2 :
  runs m ins (Returns a rest) es1 -> runs (k a) rest t es2 ->
  runs (bind m k) ins t (es1 ++ es2).
Proof.
  intros Hm Hk w. destruct (Hm w) as [Ht He]. unfold bind.
  destruct (m ins w) as [a' rest' w'| |]; cbn in Ht; inversion Ht; subst.
  destruct (Hk w') as [Ht' He']. split; [exact Ht'|].
  exact (extends_trans _ _ _ _ _ He He').
Qed.

Lemma runs_bind_waits {A B} (m : io A) (k : A -> io B) ins es :
  runs m ins Waits es -> runs (bind m k) ins Waits es.
Proof.
  intros Hm w. destruct (Hm w) as [Ht He]. unfold bind.
  destruct (m ins w); cbn in Ht; inversion Ht; subst. split; auto.
Qed.

Lemma runs_bind_raises {A B} (m : io A) (k : A -> io B) ins e rest es :
  runs m ins (Raises e rest) es -> runs (bind m k) ins (Raises e rest) es.
Proof.
  intros Hm w. destruct (Hm w) as [Ht He]. unfold bind.
  destruct (m ins w); cbn in Ht; inversion Ht; subst. split; auto.
Qed.

(** A computation that first changes what is displayed. *)
Lemma runs_before {A} (m m' : io A) ins ins' (f : world -> world) t es :
  (forall w, m' ins' w = m ins (f w)) -> (forall w, extends w (f w) []) ->
  runs m ins t es -> runs m' ins' t es.
Proof.
  intros Heq Hf Hm w. rewrite Heq. destruct (Hm (f w)) as [Ht He].
  split; [exact Ht|]. exact (extends_before _ _ _ _ (Hf w) He).
Qed.

Lemma runs_returned {A} (m : io A) ins a rest es :
  runs m ins (Returns a rest) es -> exists w w', m ins w = Returned a rest w'.
Proof.
  intros Hm. destruct (Hm blank_world) as [Ht _]. exists blank_world.
  destruct (m ins blank_world) as [a' rest' w'| |]; cbn in Ht; inversion Ht.
  subst. eauto.
Qed.

Lemma uniform_at_bind {A B} (m : io A) (k : A -> io B) ins :
  uniform_at ins m ->
  (forall a rest, (exists w w', m ins w = Returned a rest w') -> uniform_at rest (k a)) ->
  uniform_at ins (bind m k).
Proof.
  intros [[a rest| |e rest] [es Hm]] Hk.
  - destruct (Hk a rest (runs_returned _ _ _ _ _ Hm)) as [t [es' Hk']].
    exists t, (es ++ es'). exact (runs_bind _ _ _ _ _ _ _ _ Hm Hk').
  - exists Waits, es. apply runs_bind_waits, Hm.
  - exists (Raises e rest), es. apply runs_bind_raises, Hm.
Qed.

Lemma uniform_bind {A B} (m : io A) (k : A -> io B) :
  uniform m -> (forall a, uniform (k a)) -> uniform (bind m k).
Proof.
  intros Hm Hk ins. apply uniform_at_bind; [apply Hm|]. intros a rest _. apply Hk.
Qed.

Lemma uniform_ret {A} (a : A) : uniform (ret a).
Proof. intros ins. eexists. eexists. apply runs_ret. Qed.

Lemma uniform_print m : uniform (print m).
Proof. intros ins. eexists. eexists. apply runs_print. Qed.

Lemma uniform_log_attempt attempts score rating :
  uniform (V2.log_attempt attempts score rating).
Proof. intros ins. eexists. eexists. apply runs_log_attempt. Qed.

Lemma uniform_at_ext {A} (m m' : io A) ins :
  (forall w, m' ins w = m ins w) -> uniform_at ins m -> uniform_at ins m'.
Proof.
  intros Heq [t [es Hm]]. exists t, es. intros w. rewrite Heq. apply Hm.
Qed.

Create HintDb uniform.
#[local] Hint Resolve uniform_ret uniform_print uniform_log_attempt : uniform.

Ltac only_displays :=
  intros ?w; unfold extends; cbn; rewrite ?app_nil_r; auto.

Ltac direct_run :=
  intros ?w; split; [reflexivity | revert w; only_displays].

Section Independence.
Variable lower_full : str -> nat -> str.

Local Abbreviation ask_yes_no := (V2.ask_yes_no lower_full).
Local Abbreviation run_password_check_body := (V2.run_password_check_body lower_full).
Local Abbreviation run_password_check_loop := (V2.run_password_check_loop lower_full).

Lemma uniform_safe_getpass p : uniform (V2.safe_getpass p).
Proof.
  intros ins.
  induction ins as [ins IH] using (well_founded_induction
    (well_founded_ltof _ (@length event))).
  unfold ltof in IH.
  destruct ins as [|[s| |] rest].
  - exists Waits, []. direct_run.
  - exists (Returns s rest), []. direct_run.
  - destruct (IH rest) as [t [es Hrest]]; [cbn; lia|].
    exists t, es. revert Hrest.
    apply (runs_before _ _ _ _
      (fun w => display (Say InterruptedTryAgain) (display (Ask p) w)));
      [reflexivity | only_displays].
  - destruct rest as [|[s| |] rest'].
    + exists Waits, []. direct_run.
    + exists (Returns s rest'), []. direct_run.
    + destruct (IH rest') as [t [es Hrest]]; [cbn; lia|].
      exists t, es. revert Hrest.
      apply (runs_before _ _ _ _
        (fun w => display (Say InterruptedTryAgain) (display (Ask p)
                    (display (Say VisibleInput) (display (Ask p) w)))));
        [reflexivity | only_displays].
    + exists (Raises OtherError rest'), []. direct_run.
Qed.

Lemma uniform_ask_yes_no p : uniform (ask_yes_no p).
Proof.
  intros ins. induction ins as [|[ans| |] rest IH].
  - exists Waits, []. direct_run.
  - destruct IH as [t [es Hrest]]. cbn [V2.ask_yes_no].
    destruct (str_in (lower lower_full (strip ans)) V2.valid_yes) eqn:Hy.
    { exists (Returns true rest), []. intros w. cbn [V2.ask_yes_no].
      rewrite Hy. split; [reflexivity | apply extends_display]. }
    destruct (str_in (lower lower_full (strip ans)) V2.valid_no) eqn:Hn.
    { exists (Returns false rest), []. intros w. cbn [V2.ask_yes_no].
      rewrite Hy, Hn. split; [reflexivity | apply extends_display]. }
    exists t, es. revert Hrest.
    apply (runs_before _ _ _ _
      (fun w => display (Say NotYesNo) (display (Ask p) w))).
    + intros w. cbn [V2.ask_yes_no]. rewrite Hy, Hn. reflexivity.
    + only_displays.
  - destruct IH as [t [es Hrest]]. exists t, es. revert Hrest.
    apply (runs_before _ _ _ _
      (fun w => display (Say InterruptedTypeYesNo) (display (Ask p) w)));
      [reflexivity | only_displays].
  - exists (Raises OtherError rest), []. direct_run.
Qed.

#[local] Hint Resolve uniform_safe_getpass uniform_ask_yes_no : uniform.

Ltac uniform_steps :=
  repeat first
    [ solve [auto with uniform]
    | apply uniform_bind; [|intros ?]
    | match goal with |- uniform (if ?b then _ else _) => destruct b end ].

Lemma uniform_body attempts : uniform (run_password_check_body attempts).
Proof.
  unfold V2.run_password_check_body, V2.spinner.
  apply uniform_bind; [auto with uniform|]. intros password.
  destruct (V2.is_blank password); [uniform_steps|].
  destruct (V2.feedback password); uniform_steps.
Qed.

Lemma loop_as_bind attempts ins w :
  run_password_check_loop attempts ins w =
  bind (run_password_check_body attempts)
    (fun f => match f with
              | Continue attempts' => run_password_check_loop attempts'
              | Break => ret tt
              end) ins w.
Proof.
  rewrite V2.run_password_check_loop_step. unfold bind.
  destruct (run_password_check_body attempts ins w) as [[a|] rest w'| |];
    reflexivity.
Qed.

Lemma uniform_loop attempts : uniform (run_password_check_loop attempts).
Proof.
  intros ins. revert attempts.
  induction ins as [ins IH] using (well_founded_induction
    (well_founded_ltof _ (@length event))).
  unfold ltof in IH. intros attempts.
  eapply uniform_at_ext; [intros w; apply loop_as_bind|].
  apply uniform_at_bind; [apply uniform_body|].
  intros [attempts'|] rest [w [w' Hbody]].
  - apply IH. exact (V2.run_password_check_body_consumes _ _ _ _ _ _ _ Hbody).
  - apply uniform_ret.
Qed.

Lemma uniform_main_body : uniform (V2.main_body lower_full).
Proof.
  unfold V2.main_body, V2.run_password_check.
  apply uniform_bind; [apply uniform_loop|]. intros _. uniform_steps.
Qed.

Lemma main_loop_as_bind ins w :
  V2.main_loop lower_full ins w =
  bind (V2.main_body lower_full)
    (fun f => match f with
              | Continue _ => V2.main_loop lower_full
              | Break => ret tt
              end) ins w.
Proof.
  rewrite V2.main_loop_step. unfold bind.
  destruct (V2.main_body lower_full ins w) as [[a|] rest w'| |]; reflexivity.
Qed.

Lemma uniform_main_loop : uniform (V2.main_loop lower_full).
Proof.
  intros ins.
  induction ins as [ins IH] using (well_founded_induction
    (well_founded_ltof _ (@length event))).
  unfold ltof in IH.
  eapply uniform_at_ext; [intros w; apply main_loop_as_bind|].
  apply uniform_at_bind; [apply uniform_main_body|].
  intros [[]|] rest [w [w' Hbody]].
  - apply IH. exact (V2.main_body_consumes _ _ _ _ _ _ Hbody).
  - apply uniform_ret.
Qed.

Lemma uniform_main : uniform (V2.main lower_full).
Proof.
  unfold V2.main. apply uniform_bind; [apply uniform_print|].
  intros _. apply uniform_main_loop.
Qed.

#[local] Hint Resolve uniform_loop : uniform.

Lemma uniform_after_rejection attempts score :
  uniform (after_rejection lower_full attempts score).
Proof. unfold after_rejection. uniform_steps. Qed.

Lemma loop_rejected_after attempts password r rest w :
  V2.is_blank password = false -> V2.feedback password = Some r ->
  run_password_check_loop attempts (Line password :: rest) w =
  after_rejection lower_full (attempts + 1) (V2.score_password_default password)
    rest (rejected r password w).
Proof.
  intros Hb Hf. rewrite (loop_rejected _ _ _ r) by assumption.
  unfold after_rejection, bind at 1.
  destruct (ask_yes_no RetryPrompt rest (rejected r password w))
    as [[|] rest' w'| |]; try reflexivity.
  run_io. f_equal. same_world.
Qed.

(** The first password weighs on the trace and on the log through its
    blankness and its score only. *)
Lemma loop_first_password attempts p rest :
  exists t es, forall q,
    V2.is_blank q = V2.is_blank p ->
    V2.score_password_default q = V2.score_password_default p ->
    runs (run_password_check_loop attempts) (Line q :: rest) t es.
Proof.
  destruct (V2.is_blank p) eqn:Hb.
  - destruct (uniform_loop attempts rest) as [t [es Hrest]].
    exists t, es. intros q Hq _. revert Hrest.
    apply (runs_before _ _ _ _ (shows [Ask PasswordPrompt; Say EmptyInput])).
    + intros w. apply loop_blank, Hq.
    + only_displays.
  - destruct (Z.eq_dec (V2.score_password_default p) 5) as [Hs|Hs].
    + exists (Returns tt rest), [(attempts + 1, 5, u "Strong")].
      intros q Hq Hsq w. rewrite Hs in Hsq. apply feedback_none_score in Hsq.
      rewrite loop_accepted by assumption.
      split; [reflexivity|]. unfold extends. cbn. repeat split. lia.
    + destruct (uniform_after_rejection (attempts + 1)
                  (V2.score_password_default p) rest) as [t [es Hrest]].
      exists t, es. intros q Hq Hsq.
      destruct (V2.feedback q) as [r|] eqn:Hf;
        [|apply feedback_none_score in Hf; congruence].
      revert Hrest. apply (runs_before _ _ _ _ (rejected r q)).
      * intros w. rewrite (loop_rejected_after _ _ r), Hsq by assumption.
        reflexivity.
      * only_displays.
Qed.

(** C6: a log line is the timestamp followed by the attempt count, the
    score out of 5 and the rating, in the format
    [<timestamp> | attempts=<n> | score=<s>/5 | rating=<r>]; the password is
    no argument of the logger.  Every run of the program appends lines of
    that form only.  Two passwords that are both blank or both not, and have
    the same score, submitted at the same attempt count and followed by the
    same inputs, lead to the same outcome and to the same log entries, the
    timestamps apart. *)
Theorem log_independent_of_password attempts p q rest :
  (whitespace_only p <-> whitespace_only q) ->
  V2.score_password_default p = V2.score_password_default q ->
  (exists t es, forall w1 w2,
     trace_of (run_password_check_loop attempts (Line p :: rest) w1) = t /\
     trace_of (run_password_check_loop attempts (Line q :: rest) w2) = t /\
     logfile (world_of (run_password_check_loop attempts (Line p :: rest) w1))
       = logfile w1 ++ stamp (clock w1) (ticks w1) es /\
     logfile (world_of (run_password_check_loop attempts (Line q :: rest) w2))
       = logfile w2 ++ stamp (clock w2) (ticks w2) es) /\
  (forall ins, exists es, forall w,
     logfile (world_of (V2.main lower_full ins w))
       = logfile w ++ stamp (clock w) (ticks w) es) /\
  (forall n s r ins w,
     exists w',
       V2.log_attempt n s r ins w = Returned tt ins w' /\
       logfile w' = logfile w ++
         [clock w (ticks w) ++ u " | attempts=" ++ dec n ++ u " | score=" ++ dec s
            ++ u "/5 | rating=" ++ r ++ [10%N]] /\
       exists w1',
         V1.write_log n s ins w = Returned tt ins w1' /\
         logfile w1' = logfile w ++
           [clock w (ticks w) ++ u " | attempts=" ++ dec n ++ u " | score="
              ++ dec s ++ u "/5 | rating=" ++ V2.rating_from_score s ++ [10%N]]).
Proof.
  intros Hblank Hscore.
  assert (V2.is_blank q = V2.is_blank p) as Hb.
  { destruct (V2.is_blank p) eqn:Hp.
    - apply is_blank_whitespace, Hblank, is_blank_whitespace, Hp.
    - destruct (V2.is_blank q) eqn:Hq; auto.
      apply is_blank_whitespace, Hblank, is_blank_whitespace in Hq. congruence. }
  split; [|split].
  - destruct (loop_first_password attempts p rest) as [t [es Hruns]].
    exists t, es. intros w1 w2.
    destruct (Hruns p eq_refl eq_refl w1) as [Ht1 (Hl1 & _)].
    destruct (Hruns q Hb (eq_sym Hscore) w2) as [Ht2 (Hl2 & _)].
    auto.
  - intros ins. destruct (uniform_main ins) as [t [es Hruns]].
    exists es. intros w. apply (Hruns w).
  - intros n s r ins w. eexists. split; [reflexivity|].
    split; [reflexivity|]. eexists. split; reflexivity.
Qed.

End Independence.

(** ** The two versions *)

Section Versions.
Variable lower_full : str -> nat -> str.

Local Abbreviation ask_yes_no := (V2.ask_yes_no lower_full).
Local Abbreviation run_password_check_body := (V2.run_password_check_body lower_full).
Local Abbreviation run_password_check_loop := (V2.run_password_check_loop lower_full).
Local Abbreviation retry_loop := (V1.retry_loop lower_full).
Local Abbreviation script_body := (V1.script_body lower_full).
Local Abbreviation script_loop := (V1.script_loop lower_full).

(** *** The loops, event by event *)

Lemma loop_interrupt attempts rest w :
  run_password_check_loop attempts (Interrupt :: rest) w =
  run_password_check_loop attempts rest
    (shows [Ask PasswordPrompt; Say InterruptedTryAgain] w).
Proof.
  rewrite V2.run_password_check_loop_step.
  rewrite (V2.run_password_check_loop_step _ _ rest).
  replace (shows [Ask PasswordPrompt; Say InterruptedTryAgain] w)
    with (display (Say InterruptedTryAgain) (display (Ask PasswordPrompt) w))
    by same_world.
  reflexivity.
Qed.

Lemma loop_failure_nil attempts w :
  run_password_check_loop attempts [Failure] w =
  Waiting (shows [Ask PasswordPrompt; Say VisibleInput; Ask PasswordPrompt] w).
Proof.
  rewrite V2.run_password_check_loop_step.
  unfold V2.run_password_check_body, bind. cbn [V2.safe_getpass].
  f_equal. same_world.
Qed.

Lemma loop_failure_line attempts password rest w :
  run_password_check_loop attempts (Failure :: Line password :: rest) w =
  run_password_check_loop attempts (Line password :: rest)
    (shows [Ask PasswordPrompt; Say VisibleInput] w).
Proof.
  rewrite V2.run_password_check_loop_step.
  rewrite (V2.run_password_check_loop_step _ _ (Line password :: rest)).
  replace (shows [Ask PasswordPrompt; Say VisibleInput] w)
    with (display (Say VisibleInput) (display (Ask PasswordPrompt) w))
    by same_world.
  reflexivity.
Qed.

Lemma loop_failure_interrupt attempts rest w :
  run_password_check_loop attempts (Failure :: Interrupt :: rest) w =
  run_password_check_loop attempts rest
    (shows [Ask PasswordPrompt; Say VisibleInput; Ask PasswordPrompt;
            Say InterruptedTryAgain] w).
Proof.
  rewrite V2.run_password_check_loop_step.
  rewrite (V2.run_password_check_loop_step _ _ rest).
  replace (shows [Ask PasswordPrompt; Say VisibleInput; Ask PasswordPrompt;
                  Say InterruptedTryAgain] w)
    with (display (Say InterruptedTryAgain) (display (Ask PasswordPrompt)
           (display (Say VisibleInput) (display (Ask PasswordPrompt) w))))
    by same_world.
  reflexivity.
Qed.

Lemma loop_failure_failure attempts rest w :
  run_password_check_loop attempts (Failure :: Failure :: rest) w =
  Raised OtherError rest
    (shows [Ask PasswordPrompt; Say VisibleInput; Ask PasswordPrompt] w).
Proof.
  rewrite V2.run_password_check_loop_step.
  unfold V2.run_password_check_body, bind. cbn [V2.safe_getpass].
  f_equal. same_world.
Qed.

Lemma script_loop_interrupt attempts rest w :
  script_loop attempts (Interrupt :: rest) w =
  script_loop attempts rest
    (shows [Ask PasswordPrompt; Say InterruptedTypePassword] w).
Proof.
  rewrite V1.script_loop_step. rewrite (V1.script_loop_step _ _ rest).
  replace (shows [Ask PasswordPrompt; Say InterruptedTypePassword] w)
    with (display (Say InterruptedTypePassword) (display (Ask PasswordPrompt) w))
    by same_world.
  reflexivity.
Qed.

Lemma script_loop_failure_nil attempts w :
  script_loop attempts [Failure] w =
  Waiting (shows [Ask PasswordPrompt; Say VisibleInputV1; Ask PasswordPrompt] w).
Proof.
  rewrite V1.script_loop_step.
  unfold V1.script_body, bind. cbn [V1.read_password].
  f_equal. same_world.
Qed.

Lemma script_loop_failure_line attempts password rest w :
  script_loop attempts (Failure :: Line password :: rest) w =
  script_loop attempts (Line password :: rest)
    (shows [Ask PasswordPrompt; Say VisibleInputV1] w).
Proof.
  rewrite V1.script_loop_step.
  rewrite (V1.script_loop_step _ _ (Line password :: rest)).
  replace (shows [Ask PasswordPrompt; Say VisibleInputV1] w)
    with (display (Say VisibleInputV1) (display (Ask PasswordPrompt) w))
    by same_world.
  reflexivity.
Qed.

Lemma script_loop_failure_interrupt attempts rest w :
  script_loop attempts (Failure :: Interrupt :: rest) w =
  script_loop attempts rest
    (shows [Ask PasswordPrompt; Say VisibleInputV1; Ask PasswordPrompt;
            Say InterruptedTypePassword] w).
Proof.
  rewrite V1.script_loop_step. rewrite (V1.script_loop_step _ _ rest).
  replace (shows [Ask PasswordPrompt; Say VisibleInputV1; Ask PasswordPrompt;
                  Say InterruptedTypePassword] w)
    with (display (Say InterruptedTypePassword) (display (Ask PasswordPrompt)
           (display (Say VisibleInputV1) (display (Ask PasswordPrompt) w))))
    by same_world.
  reflexivity.
Qed.

Lemma script_loop_failure_failure attempts rest w :
  script_loop attempts (Failure :: Failure :: rest) w =
  Raised OtherError rest
    (shows [Ask PasswordPrompt; Say VisibleInputV1; Ask PasswordPrompt] w).
Proof.
  rewrite V1.script_loop_step.
  unfold V1.script_body, bind. cbn [V1.read_password].
  f_equal. same_world.
Qed.

(** *** After a rejected attempt, event by event *)

Local Abbreviation after_v2 := (after_rejection lower_full).
Local Abbreviation after_v1 := (after_rejection_v1 lower_full).

Lemma answer_cases ans :
  says_yes lower_full ans \/ says_no lower_full ans \/
  (~ says_yes lower_full ans /\ ~ says_no lower_full ans).
Proof.
  unfold says_yes, says_no.
  destruct (str_in (normalised lower_full ans) [u "y"; u "yes"]) eqn:Hy;
    [left; apply str_in_In, Hy|].
  destruct (str_in (normalised lower_full ans) [u "n"; u "no"]) eqn:Hn;
    [right; left; apply str_in_In, Hn|].
  right; right. split; apply str_in_false; assumption.
Qed.

Lemma after_nil attempts score w :
  after_v2 attempts score [] w = Waiting (shows [Ask RetryPrompt] w).
Proof. reflexivity. Qed.

Lemma after_yes attempts score ans rest w :
  says_yes lower_full ans ->
  after_v2 attempts score (Line ans :: rest) w =
  run_password_check_loop attempts rest (shows [Ask RetryPrompt; Say BlankLine] w).
Proof.
  intros H. unfold after_rejection, bind at 1.
  rewrite ask_yes_no_yes by exact H. run_io. f_equal. same_world.
Qed.

Lemma after_no attempts score ans rest w :
  says_no lower_full ans ->
  after_v2 attempts score (Line ans :: rest) w =
  Returned tt rest
    (shows [Say LogSaved]
       (logged attempts score (V2.rating_from_score score)
          (shows [Ask RetryPrompt; Say AllDone; Say (ThankYou attempts)] w))).
Proof.
  intros H. unfold after_rejection, bind at 1.
  rewrite ask_yes_no_no by exact H. run_io. f_equal. same_world.
Qed.

Lemma after_invalid attempts score ans rest w :
  ~ says_yes lower_full ans -> ~ says_no lower_full ans ->
  after_v2 attempts score (Line ans :: rest) w =
  after_v2 attempts score rest (shows [Ask RetryPrompt; Say NotYesNo] w).
Proof.
  intros Hy Hn. unfold after_rejection, bind at 1.
  rewrite ask_yes_no_invalid by assumption. reflexivity.
Qed.

Lemma after_interrupt attempts score rest w :
  after_v2 attempts score (Interrupt :: rest) w =
  after_v2 attempts score rest
    (shows [Ask RetryPrompt; Say InterruptedTypeYesNo] w).
Proof.
  unfold after_rejection, bind at 1.
  rewrite ask_yes_no_interrupt. reflexivity.
Qed.

Lemma after_failure attempts score rest w :
  after_v2 attempts score (Failure :: rest) w =
  Raised OtherError rest (shows [Ask RetryPrompt] w).
Proof. reflexivity. Qed.

Lemma after_v1_nil attempts score w :
  after_v1 attempts score [] w = Waiting (shows [Ask RetryPrompt] w).
Proof. reflexivity. Qed.

Lemma after_v1_yes attempts score ans rest w :
  says_yes lower_full ans ->
  after_v1 attempts score (Line ans :: rest) w =
  script_loop attempts rest (shows [Ask RetryPrompt; Say BlankLine] w).
Proof.
  intros H. unfold after_rejection_v1, bind.
  rewrite retry_loop_yes by exact H. reflexivity.
Qed.

Lemma after_v1_no attempts score ans rest w :
  says_no lower_full ans ->
  after_v1 attempts score (Line ans :: rest) w =
  Raised (SystemExit 0) rest
    (shows [Say LogSaved]
       (logged attempts score (V2.rating_from_score score)
          (shows [Ask RetryPrompt; Say AllDone; Say (ThankYou attempts)] w))).
Proof.
  intros H. unfold after_rejection_v1, bind.
  rewrite retry_loop_no by exact H. reflexivity.
Qed.

Lemma after_v1_invalid attempts score ans rest w :
  ~ says_yes lower_full ans -> ~ says_no lower_full ans ->
  after_v1 attempts score (Line ans :: rest) w =
  after_v1 attempts score rest (shows [Ask RetryPrompt; Say HeyNotYesNo] w).
Proof.
  intros Hy Hn. unfold after_rejection_v1, bind.
  rewrite retry_loop_invalid by assumption. reflexivity.
Qed.

Lemma after_v1_interrupt attempts score rest w :
  after_v1 attempts score (Interrupt :: rest) w =
  Raised Interrupted rest (shows [Ask RetryPrompt] w).
Proof. reflexivity. Qed.

Lemma after_v1_failure attempts score rest w :
  after_v1 attempts score (Failure :: rest) w =
  Raised OtherError rest (shows [Ask RetryPrompt] w).
Proof. reflexivity. Qed.

Lemma script_loop_rejected_after attempts password r rest w :
  V2.is_blank password = false -> V2.feedback password = Some r ->
  script_loop attempts (Line password :: rest) w =
  after_v1 (attempts + 1) (V2.score_password_default password)
    rest (rejected r password w).
Proof.
  intros Hb Hf. rewrite (script_loop_rejected _ _ _ r) by assumption.
  reflexivity.
Qed.

(** *** The two session loops side by side *)

Lemma attempts_seen_app os1 os2 :
  attempts_seen (os1 ++ os2) = attempts_seen os1 ++ attempts_seen os2.
Proof. apply flat_map_app. Qed.

Lemma same_view_shows os1 os2 w1 w2 :
  attempts_seen os1 = attempts_seen os2 ->
  same_view w1 w2 -> same_view (shows os1 w1) (shows os2 w2).
Proof.
  unfold same_view. cbn [stdout logfile clock ticks shows].
  intros Hos (Hseen & Hlog & Hclock & Hticks).
  rewrite !attempts_seen_app, Hos, Hseen. auto.
Qed.

Lemma same_view_logged attempts score rating w1 w2 :
  same_view w1 w2 ->
  same_view (logged attempts score rating w1) (logged attempts score rating w2).
Proof.
  unfold same_view. cbn [stdout logfile clock ticks logged].
  intros (Hseen & Hlog & Hclock & Hticks).
  rewrite Hseen, Hlog, Hclock, Hticks. auto.
Qed.

Lemma observe_same (o1 o2 : outcome unit) :
  ending_of o1 = ending_of o2 -> same_view (world_of o1) (world_of o2) ->
  observe o1 = observe o2.
Proof.
  unfold observe. intros He (Hseen & Hlog & _). rewrite He, Hseen, Hlog.
  reflexivity.
Qed.

Ltac views :=
  repeat first
    [ assumption
    | apply same_view_shows; [reflexivity|]
    | apply same_view_logged ].

Lemma versions_side_by_side n : forall ins, (length ins < n)%nat ->
  (forall attempts w1 w2, same_view w1 w2 ->
     interrupted (script_loop attempts ins w1) \/
     observe (script_loop attempts ins w1)
       = observe (run_password_check_loop attempts ins w2)) /\
  (forall attempts score w1 w2, same_view w1 w2 ->
     interrupted (after_v1 attempts score ins w1) \/
     observe (after_v1 attempts score ins w1)
       = observe (after_v2 attempts score ins w2)).
Proof.
  induction n as [|n IH]; intros ins Hlen; [lia|].
  split.
  - intros attempts w1 w2 Hv.
    destruct ins as [|[password| |] rest].
    + rewrite script_loop_nil, loop_nil. right.
      apply observe_same; [reflexivity | cbn [world_of]; views].
    + cbn [length] in Hlen. destruct (V2.is_blank password) eqn:Hb.
      * rewrite script_loop_blank, loop_blank by exact Hb.
        apply IH; [lia | views].
      * destruct (V2.feedback password) as [r|] eqn:Hf.
        -- rewrite (script_loop_rejected_after _ _ r),
             (loop_rejected_after _ _ _ r) by assumption.
           apply IH; [lia | unfold rejected; views].
        -- rewrite script_loop_accepted, loop_accepted by assumption. right.
           apply observe_same; [reflexivity|]. cbn [world_of].
           unfold accepted_v1, accepted. views.
    + cbn [length] in Hlen. rewrite script_loop_interrupt, loop_interrupt.
      apply IH; [lia | views].
    + cbn [length] in Hlen. destruct rest as [|[password| |] rest'].
      * rewrite script_loop_failure_nil, loop_failure_nil. right.
        apply observe_same; [reflexivity | cbn [world_of]; views].
      * rewrite script_loop_failure_line, loop_failure_line.
        apply IH; [cbn [length] in *; lia | views].
      * rewrite script_loop_failure_interrupt, loop_failure_interrupt.
        apply IH; [cbn [length] in *; lia | views].
      * rewrite script_loop_failure_failure, loop_failure_failure. right.
        apply observe_same; [reflexivity | cbn [world_of]; views].
  - intros attempts score w1 w2 Hv.
    destruct ins as [|[ans| |] rest].
    + rewrite after_nil, after_v1_nil. right.
      apply observe_same; [reflexivity | cbn [world_of]; views].
    + cbn [length] in Hlen.
      destruct (answer_cases ans) as [Hy|[Hn|[Hy Hn]]].
      * rewrite after_yes, after_v1_yes by exact Hy.
        apply IH; [lia | views].
      * rewrite after_no, after_v1_no by exact Hn. right.
        apply observe_same; [reflexivity | cbn [world_of]; views].
      * rewrite after_invalid, after_v1_invalid by assumption.
        apply IH; [lia | views].
    + left. rewrite after_v1_interrupt. eexists. eexists. reflexivity.
    + rewrite after_failure, after_v1_failure. right.
      apply observe_same; [reflexivity | cbn [world_of]; views].
Qed.

Lemma same_view_refl w : same_view w w.
Proof. unfold same_view. auto. Qed.

Lemma script_as_loop ins w :
  V1.script lower_full ins w = script_loop 0 ins (shows [Say Banner] w).
Proof. reflexivity. Qed.

(** C5, as the code has it: within one session (the loop of v1.0, the loop
    of [run_password_check] in v2.0), started at the same attempt count, the
    two versions show the same blocking reasons and scores in the same
    order, write the same log lines and end on the same input with the same
    events unread, unless v1.0 dies of an interrupt at its retry prompt.  In
    particular the script of v1.0 behaves as the banner followed by one call
    of [run_password_check]. *)
Theorem sessions_agree attempts ins w :
  ~ interrupted (script_loop attempts ins w) ->
  observe (script_loop attempts ins w)
    = observe (run_password_check_loop attempts ins w) /\
  (~ interrupted (V1.script lower_full ins w) ->
   observe (V1.script lower_full ins w)
     = observe (bind (print Banner) (fun _ => V2.run_password_check lower_full)
                  ins w)).
Proof.
  intros Hint.
  destruct (versions_side_by_side (S (length ins)) ins (Nat.lt_succ_diag_r _))
    as [Hloops _].
  split.
  - destruct (Hloops attempts w w (same_view_refl w)) as [H|H];
      [contradiction | exact H].
  - intros Hint'. rewrite script_as_loop in *.
    destruct (Hloops 0 (shows [Say Banner] w) (shows [Say Banner] w)
                (same_view_refl _)) as [H|H]; [contradiction | exact H].
Qed.

End Versions.

(** ** Concrete runs *)

(** C5 as stated fails: on [two_checks] v1.0 ends after the first accepted
    password with four events unread and one log line, while v2.0 asks for
    another password, checks "short1" and writes a second log line. *)
Lemma versions_differ :
  observe (V1.script plain_lower two_checks noon)
    <> observe (V2.main plain_lower two_checks noon).
Proof. intros H. vm_compute in H. discriminate H. Qed.

Lemma sessions_agree_witness :
  ~ interrupted (V1.script_loop plain_lower 0 one_check noon) /\
  observe (V1.script_loop plain_lower 0 one_check noon)
    = observe (V2.run_password_check_loop plain_lower 0 one_check noon).
Proof.
  assert (~ interrupted (V1.script_loop plain_lower 0 one_check noon)) as H.
  { intros [rest [w H]]. vm_compute in H. discriminate H. }
  split; [exact H|].
  exact (proj1 (sessions_agree plain_lower 0 one_check noon H)).
Defined.

Lemma rating_from_score_on_range_witness :
  0 <= 4 <= 5 /\ V2.rating_from_score 4 = u "Medium".
Proof.
  assert (0 <= 4 <= 5) as H by lia.
  split; [exact H|].
  destruct (rating_from_score_on_range 4 H) as (_ & Hmedium & _).
  apply Hmedium. right. reflexivity.
Defined.

Lemma lowercase_not_blank : ~ whitespace_only (u "lowercase!").
Proof. intros H. inversion H. discriminate. Qed.

Lemma short1_not_blank : ~ whitespace_only (u "short1").
Proof. intros H. inversion H. discriminate. Qed.

Lemma strong_not_blank : ~ whitespace_only (u "Str0ng!Pass").
Proof. intros H. inversion H. discriminate. Qed.

Lemma first_unmet_rule_is_reported_witness :
  ~ whitespace_only (u "lowercase!") /\
  (exists r, ~ rule r (u "lowercase!")) /\
  exists w',
    V2.run_password_check_loop plain_lower 0 [Line (u "lowercase!")] noon
      = Waiting w' /\
    reasons (stdout w') = [NoUppercase].
Proof.
  assert (exists r, ~ rule r (u "lowercase!")) as Hr.
  { exists NoDigit. rewrite <- search_digit. vm_compute. discriminate. }
  split; [exact lowercase_not_blank|]. split; [exact Hr|].
  destruct (first_unmet_rule_is_reported plain_lower 0 _ noon
              lowercase_not_blank Hr)
    as [[r [w' (_ & Hf & _ & Hrun & _ & _ & Hreasons)]] _].
  exists w'. split; [exact Hrun|].
  vm_compute in Hf. injection Hf as <-. exact Hreasons.
Defined.

Lemma accepted_iff_score_5_witness :
  ~ whitespace_only (u "Str0ng!Pass") /\
  exists w',
    V2.run_password_check_loop plain_lower 0 [Line (u "Str0ng!Pass")] noon
      = Returned tt [] w' /\
    logfile w' =
      [u "2025-10-16T12:00:00 | attempts=1 | score=5/5 | rating=Strong" ++ [10%N]].
Proof.
  split; [exact strong_not_blank|].
  destruct (accepted_iff_score_5 plain_lower 0 _ [] noon strong_not_blank)
    as (_ & _ & Hacc & _).
  destruct (Hacc eq_refl) as [w' [_ (Hrun & _ & Hlog & _)]].
  exists w'. split; [exact Hrun | exact Hlog].
Defined.

Lemma log_independent_of_password_witness :
  (whitespace_only (u "short1") <-> whitespace_only (u "x9")) /\
  V2.score_password_default (u "short1") = V2.score_password_default (u "x9") /\
  exists t es, forall w1 w2,
    trace_of (V2.run_password_check_loop plain_lower 3
                (Line (u "short1") :: [Line (u "no")]) w1) = t /\
    trace_of (V2.run_password_check_loop plain_lower 3
                (Line (u "x9") :: [Line (u "no")]) w2) = t /\
    logfile (world_of (V2.run_password_check_loop plain_lower 3
                         (Line (u "short1") :: [Line (u "no")]) w1))
      = logfile w1 ++ stamp (clock w1) (ticks w1) es /\
    logfile (world_of (V2.run_password_check_loop plain_lower 3
                         (Line (u "x9") :: [Line (u "no")]) w2))
      = logfile w2 ++ stamp (clock w2) (ticks w2) es.
Proof.
  assert (whitespace_only (u "short1") <-> whitespace_only (u "x9")) as Hblank.
  { split; intros H; inversion H; discriminate. }
  split; [exact Hblank|]. split; [reflexivity|].
  exact (proj1 (log_independent_of_password plain_lower 3 (u "short1") (u "x9")
                  [Line (u "no")] Hblank eq_refl)).
Defined.

Lemma blank_input_reprompts_witness :
  whitespace_only (u "   ") /\
  exists w',
    V2.run_password_check_loop plain_lower 2 (Line (u "   ") :: one_check) noon
      = V2.run_password_check_loop plain_lower 2 one_check w' /\
    logfile w' = logfile noon.
Proof.
  assert (whitespace_only (u "   ")) as H by (repeat constructor).
  split; [exact H|].
  destruct (blank_input_reprompts plain_lower 2 _ one_check noon H)
    as [w' (Hrun & _ & _ & Hlog & _)].
  exists w'. split; [exact Hrun | exact Hlog].
Defined.

Lemma retry_answer_after_rejection_witness :
  ~ whitespace_only (u "short1") /\
  V2.score_password_default (u "short1") <> 5 /\
  says_no plain_lower (u " No ") /\
  exists w',
    V2.run_password_check_loop plain_lower 0
      [Line (u "short1"); Line (u " No ")] noon = Returned tt [] w' /\
    logfile w' =
      [u "2025-10-16T12:00:00 | attempts=1 | score=2/5 | rating=Weak" ++ [10%N]].
Proof.
  assert (V2.score_password_default (u "short1") <> 5) as Hs
    by (vm_compute; discriminate).
  assert (says_no plain_lower (u " No ")) as Hno by (right; left; reflexivity).
  split; [exact short1_not_blank|]. split; [exact Hs|]. split; [exact Hno|].
  destruct (retry_answer_after_rejection plain_lower 0 _ (u " No ") [] noon
              short1_not_blank Hs) as [r (_ & Hdecline & _)].
  destruct (Hdecline Hno) as [w' (Hrun & _ & _ & Hlog)].
  exists w'. split; [exact Hrun | exact Hlog].
Defined.

Lemma ask_yes_no_first_valid_witness :
  Forall (invalid plain_lower) [Line (u "maybe"); Interrupt] /\
  (says_yes plain_lower (u "YES") \/ says_no plain_lower (u "YES")) /\
  V2.ask_yes_no plain_lower RetryPrompt
    [Line (u "maybe"); Interrupt; Line (u "YES"); Line (u "n")] noon
    = Returned true [Line (u "n")]
        (shows [Ask RetryPrompt; Say NotYesNo; Ask RetryPrompt;
                Say InterruptedTypeYesNo; Ask RetryPrompt] noon).
Proof.
  assert (Forall (invalid plain_lower) [Line (u "maybe"); Interrupt]) as Hpre.
  { constructor; [|constructor; [exact I | constructor]].
    split; intros [H|[H|[]]]; discriminate H. }
  assert (says_yes plain_lower (u "YES")) as Hyes by (right; left; reflexivity).
  split; [exact Hpre|]. split; [left; exact Hyes|].
  destruct (ask_yes_no_first_valid plain_lower RetryPrompt _ (u "YES")
              [Line (u "n")] noon Hpre (or_introl Hyes))
    as [[b (Hrun & Hb & _)] _].
  rewrite (proj2 Hb Hyes) in Hrun. exact Hrun.
Defined.

(** * Further properties of the code *)

(** ** The scorer with any arguments *)






(** X3: a password of fewer than 8 characters scores 4 at most, is never
    rated "Strong", and is reported as too short by both versions whatever
    else it lacks. *)
Theorem short_password_never_strong password :
  len password < 8 ->
  V2.score_password_default password <= 4 /\
  V2.rating_from_score (V2.score_password_default password) <> u "Strong" /\
  V2.feedback password = Some TooShort /\
  V1.feedback password = Some TooShort.
Proof.
  intros Hlen.
  assert ((len password >=? 8) = false) as Hge
    by (rewrite Z.geb_leb; apply Z.leb_gt; lia).
  assert ((len password <? 8) = true) as Hlt by (apply Z.ltb_lt; exact Hlen).
  assert (V2.score_password_default password <= 4) as Hs.
  { unfold V2.score_password_default, V2.score_password. rewrite Hge.
    destruct (re_search pat_upper password), (re_search pat_lower password),
      (re_search pat_digit password), (re_search pat_symbols password);
      cbn; lia. }
  split; [exact Hs|]. split.
  - unfold V2.rating_from_score.
    destruct (Z.eqb_spec (V2.score_password_default password) 5); [lia|].
    destruct (V2.score_password_default password >=? 3); discriminate.
  - unfold V1.feedback, V2.feedback. rewrite Hlt. split; reflexivity.
Qed.

(** ** The password reader *)

Lemma same_log_refl w : same_log w w.
Proof. unfold same_log. auto. Qed.

Lemma same_log_shows os w : same_log w (shows os w).
Proof. unfold same_log. auto. Qed.

Lemma same_log_display o w : same_log w (display o w).
Proof. unfold same_log. auto. Qed.

Lemma same_log_trans w1 w2 w3 : same_log w1 w2 -> same_log w2 w3 -> same_log w1 w3.
Proof.
  unfold same_log. intros (Hl & Hc & Ht) (Hl' & Hc' & Ht').
  rewrite Hl', Hc', Ht'. auto.
Qed.

Lemma safe_getpass_round p r tail w :
  V2.safe_getpass p (round_events r ++ tail) w =
  V2.safe_getpass p tail (shows (round_outputs p r) w).
Proof. destruct r; cbn [round_events app V2.safe_getpass]; f_equal; same_world. Qed.

Lemma safe_getpass_rounds p rounds : forall tail w,
  V2.safe_getpass p (flat_map round_events rounds ++ tail) w =
  V2.safe_getpass p tail (shows (flat_map (round_outputs p) rounds) w).
Proof.
  induction rounds as [|r rounds IH]; intros tail w.
  - cbn. f_equal. apply world_eq; cbn; auto using app_nil_r.
  - cbn [flat_map]. rewrite <- app_assoc, safe_getpass_round, IH.
    f_equal. same_world.
Qed.

(** X4: [safe_getpass] returns the line as it was typed, after any number
    of rounds ended by an interrupt, each of which shows the prompt again.
    When [getpass] fails, the line is read visibly after a warning; when the
    visible read fails as well, that exception leaves the function. *)
Theorem safe_getpass_retries p rounds s rest w :
  V2.safe_getpass p (flat_map round_events rounds ++ Line s :: rest) w
    = Returned s rest (shows (flat_map (round_outputs p) rounds ++ [Ask p]) w) /\
  V2.safe_getpass p (flat_map round_events rounds ++ Failure :: Line s :: rest) w
    = Returned s rest
        (shows (flat_map (round_outputs p) rounds
                  ++ [Ask p; Say VisibleInput; Ask p]) w) /\
  V2.safe_getpass p (flat_map round_events rounds ++ Failure :: Failure :: rest) w
    = Raised OtherError rest
        (shows (flat_map (round_outputs p) rounds
                  ++ [Ask p; Say VisibleInput; Ask p]) w) /\
  V2.safe_getpass p (flat_map round_events rounds) w
    = Waiting (shows (flat_map (round_outputs p) rounds ++ [Ask p]) w).
Proof.
  split; [|split; [|split]].
  - rewrite safe_getpass_rounds. cbn. f_equal. same_world.
  - rewrite safe_getpass_rounds. cbn. f_equal. same_world.
  - rewrite safe_getpass_rounds. cbn. f_equal. same_world.
  - rewrite <- (app_nil_r (flat_map round_events rounds)).
    rewrite safe_getpass_rounds. cbn. f_equal. same_world.
Qed.

(** X5: [safe_getpass] never lets an interrupt through and never touches
    the log file or the clock.  What it returns is a line of the input,
    reached through interrupted rounds only; the one exception it raises is
    the failure of the visible read that follows a failure of [getpass]. *)
Theorem safe_getpass_outcomes p ins w :
  same_log w (world_of (V2.safe_getpass p ins w)) /\
  (forall s rest w', V2.safe_getpass p ins w = Returned s rest w' ->
     exists rounds,
       ins = flat_map round_events rounds ++ Line s :: rest \/
       ins = flat_map round_events rounds ++ Failure :: Line s :: rest) /\
  (forall e rest w', V2.safe_getpass p ins w = Raised e rest w' ->
     e = OtherError /\
     exists rounds, ins = flat_map round_events rounds ++ Failure :: Failure :: rest).
Proof.
  revert w.
  induction ins as [ins IH] using (well_founded_induction
    (well_founded_ltof _ (@length event))).
  unfold ltof in IH. intros w.
  destruct ins as [|[s0| |] ins].
  - cbn. split; [apply same_log_display|]. split; intros; discriminate.
  - cbn. split; [apply same_log_display|]. split; [|intros; discriminate].
    intros s rest w' H. injection H as <- <- _. exists []. left. reflexivity.
  - cbn [V2.safe_getpass].
    destruct (IH ins ltac:(cbn; lia)
                (display (Say InterruptedTryAgain) (display (Ask p) w)))
      as (Hlog & Hret & Hraise).
    split; [|split].
    + eapply same_log_trans; [|exact Hlog]. unfold same_log. auto.
    + intros s rest w' H. destruct (Hret _ _ _ H) as [rounds [-> | ->]];
        exists (InterruptedGetpass :: rounds); [left | right]; reflexivity.
    + intros e rest w' H. destruct (Hraise _ _ _ H) as [-> [rounds ->]].
      split; [reflexivity|]. exists (InterruptedGetpass :: rounds). reflexivity.
  - destruct ins as [|[s1| |] ins].
    + cbn. split; [unfold same_log; auto|]. split; intros; discriminate.
    + cbn. split; [unfold same_log; auto|]. split; [|intros; discriminate].
      intros s rest w' H. injection H as <- <- _. exists []. right. reflexivity.
    + cbn [V2.safe_getpass].
      destruct (IH ins ltac:(cbn; lia)
                  (display (Say InterruptedTryAgain) (display (Ask p)
                     (display (Say VisibleInput) (display (Ask p) w)))))
        as (Hlog & Hret & Hraise).
      split; [|split].
      * eapply same_log_trans; [|exact Hlog]. unfold same_log. auto.
      * intros s rest w' H. destruct (Hret _ _ _ H) as [rounds [-> | ->]];
          exists (InterruptedInput :: rounds); [left | right]; reflexivity.
      * intros e rest w' H. destruct (Hraise _ _ _ H) as [-> [rounds ->]].
        split; [reflexivity|]. exists (InterruptedInput :: rounds). reflexivity.
    + cbn. split; [unfold same_log; auto|]. split; [intros; discriminate|].
      intros e rest w' H. injection H as <- <- _. split; [reflexivity|].
      exists []. reflexivity.
Qed.

Lemma reword_display o w :
  reword_world (display o w) = display (reword o) (reword_world w).
Proof. apply world_eq; cbn; auto. apply map_app. Qed.

(** X6: the password reader of v2.0 is the inline loop of v1.0 (lines
    43-56) with two messages reworded: on the same events it returns the same
    line or raises the same exception with the same events unread, and what
    it has displayed is what v1.0 displays, message for message. *)
Theorem safe_getpass_refactors_v1 ins w :
  V2.safe_getpass PasswordPrompt ins (reword_world w)
    = map_world reword_world (V1.read_password ins w).
Proof.
  revert w.
  induction ins as [ins IH] using (well_founded_induction
    (well_founded_ltof _ (@length event))).
  unfold ltof in IH. intros w.
  destruct ins as [|[s0| |] ins];
    cbn [V1.read_password V2.safe_getpass map_world].
  - rewrite reword_display. reflexivity.
  - rewrite reword_display. reflexivity.
  - rewrite <- IH by (cbn; lia).
    rewrite !reword_display. reflexivity.
  - destruct ins as [|[s1| |] ins]; cbn [map_world].
    + rewrite !reword_display. reflexivity.
    + rewrite !reword_display. reflexivity.
    + rewrite <- IH by (cbn; lia).
      rewrite !reword_display. reflexivity.
    + rewrite !reword_display. reflexivity.
Qed.

(** ** The yes/no reader *)

Lemma lstrip_padding ws s : whitespace_only ws -> lstrip (ws ++ s) = lstrip s.
Proof.
  unfold whitespace_only. induction 1 as [|c ws Hc _ IH]; cbn; auto.
  rewrite Hc. exact IH.
Qed.

Lemma lstrip_solid s :
  Forall (fun c => is_whitespace c = false) s -> forall tail,
  s <> [] -> lstrip (s ++ tail) = s ++ tail.
Proof.
  intros Hs tail Hne. destruct s as [|c s]; [congruence|].
  inversion_clear Hs as [|? ? Hc _]. cbn. rewrite Hc. reflexivity.
Qed.

Lemma strip_padding ws1 core ws2 :
  whitespace_only ws1 -> whitespace_only ws2 ->
  Forall (fun c => is_whitespace c = false) core ->
  strip (ws1 ++ core ++ ws2) = core.
Proof.
  intros Hw1 Hw2 Hcore. unfold strip, rstrip.
  rewrite lstrip_padding by exact Hw1.
  destruct core as [|c core].
  - cbn [app]. apply lstrip_nil in Hw2. rewrite Hw2. reflexivity.
  - rewrite lstrip_solid by (auto; discriminate).
    rewrite rev_app_distr, lstrip_padding
      by (unfold whitespace_only in *; apply Forall_rev; exact Hw2).
    rewrite <- (app_nil_r (rev (c :: core))), lstrip_solid, app_nil_r.
    + apply rev_involutive.
    + apply Forall_rev. exact Hcore.
    + intros H. apply (f_equal (@length char)) in H.
      rewrite length_rev in H. discriminate H.
Qed.

Lemma caseless_solid c t : caseless c t -> is_whitespace c = false.
Proof.
  intros [Ht [-> | Hc]].
  - unfold is_whitespace.
    repeat match goal with
    | |- context [(?a <=? ?b)%N] => destruct (N.leb_spec a b); try lia
    | |- context [(?a =? ?b)%N] => destruct (N.eqb_spec a b); try lia
    end; reflexivity.
  - unfold is_whitespace.
    repeat match goal with
    | |- context [(?a <=? ?b)%N] => destruct (N.leb_spec a b); try lia
    | |- context [(?a =? ?b)%N] => destruct (N.eqb_spec a b); try lia
    end; reflexivity.
Qed.

Lemma spells_solid s word : spells s word -> Forall (fun c => is_whitespace c = false) s.
Proof.
  induction 1 as [|c t s word Hc _ IH]; constructor; auto.
  exact (caseless_solid _ _ Hc).
Qed.

Section Answers.
Variable lower_full : str -> nat -> str.

Lemma lower_at_caseless whole i c t :
  caseless c t -> lower_at lower_full whole i c = [t].
Proof.
  intros [Ht [-> | Hc]]; unfold lower_at.
  - destruct (N.ltb_spec t 128); [|lia].
    destruct (N.leb_spec 65 t), (N.leb_spec t 90); cbn; try reflexivity; lia.
  - destruct (N.ltb_spec c 128); [|lia].
    destruct (N.leb_spec 65 c), (N.leb_spec c 90); cbn; try (f_equal; lia); lia.
Qed.

Lemma lower_from_spells whole s word : spells s word ->
  forall i, lower_from lower_full whole i s = word.
Proof.
  induction 1 as [|c t s word Hc _ IH]; intros i; cbn [lower_from]; auto.
  rewrite (lower_at_caseless _ _ _ _ Hc), IH. reflexivity.
Qed.

Lemma normalised_padded ws1 core ws2 word :
  whitespace_only ws1 -> whitespace_only ws2 -> spells core word ->
  normalised lower_full (ws1 ++ core ++ ws2) = word.
Proof.
  intros Hw1 Hw2 Hs. unfold normalised.
  rewrite strip_padding by (eauto using spells_solid).
  apply lower_from_spells, Hs.
Qed.

(** X7: a yes/no answer is read without regard to ASCII case and to the
    whitespace around it: whatever the mix of cases and the padding, "y" and
    "yes" make [ask_yes_no] return [True] and "n" and "no" make it return
    [False], at once and with the prompt shown a single time. *)
Theorem ask_yes_no_ignores_case_and_padding p ws1 core ws2 rest w :
  whitespace_only ws1 -> whitespace_only ws2 ->
  (spells core (u "y") \/ spells core (u "yes") ->
   V2.ask_yes_no lower_full p (Line (ws1 ++ core ++ ws2) :: rest) w
     = Returned true rest (shows [Ask p] w)) /\
  (spells core (u "n") \/ spells core (u "no") ->
   V2.ask_yes_no lower_full p (Line (ws1 ++ core ++ ws2) :: rest) w
     = Returned false rest (shows [Ask p] w)).
Proof.
  intros Hw1 Hw2. split; intros Hword.
  - apply ask_yes_no_yes. unfold says_yes.
    destruct Hword as [H|H]; rewrite (normalised_padded _ _ _ _ Hw1 Hw2 H);
      cbn; auto.
  - apply ask_yes_no_no. unfold says_no.
    destruct Hword as [H|H]; rewrite (normalised_padded _ _ _ _ Hw1 Hw2 H);
      cbn; auto.
Qed.

Lemma ask_yes_no_raised p ins : forall w e rest w',
  V2.ask_yes_no lower_full p ins w = Raised e rest w' ->
  e = OtherError /\
  exists pre, ins = pre ++ Failure :: rest /\ Forall (invalid lower_full) pre.
Proof.
  induction ins as [|[ans| |] ins IH]; cbn [V2.ask_yes_no];
    intros w e rest w' H; try discriminate.
  - destruct (str_in _ V2.valid_yes) eqn:Hy; [discriminate|].
    destruct (str_in _ V2.valid_no) eqn:Hn; [discriminate|].
    apply IH in H. destruct H as [-> [pre [-> Hpre]]].
    split; [reflexivity|]. exists (Line ans :: pre). split; [reflexivity|].
    constructor; auto. split; apply str_in_false; assumption.
  - apply IH in H. destruct H as [-> [pre [-> Hpre]]].
    split; [reflexivity|]. exists (Interrupt :: pre). split; [reflexivity|].
    constructor; cbn; auto.
  - injection H as <- <- _. split; [reflexivity|]. exists []. auto.
Qed.

Lemma ask_yes_no_same_log p ins : forall w,
  same_log w (world_of (V2.ask_yes_no lower_full p ins w)).
Proof.
  induction ins as [|[ans| |] ins IH]; intros w; cbn [V2.ask_yes_no].
  - apply same_log_display.
  - destruct (str_in _ V2.valid_yes); [apply same_log_display|].
    destruct (str_in _ V2.valid_no); [apply same_log_display|].
    eapply same_log_trans; [|apply IH]. unfold same_log. auto.
  - eapply same_log_trans; [|apply IH]. unfold same_log. auto.
  - apply same_log_display.
Qed.

(** X8: [ask_yes_no] catches every interrupt.  It raises only when its
    [input] fails with another exception before a valid answer has come, and
    it is that exception which leaves; until then each invalid response and
    each interrupt has been answered by the prompt again.  It never touches
    the log file or the clock. *)
Theorem ask_yes_no_raises_on_failure_only p pre rest w :
  Forall (invalid lower_full) pre ->
  V2.ask_yes_no lower_full p (pre ++ Failure :: rest) w
    = Raised OtherError rest (shows (reprompts p pre ++ [Ask p]) w) /\
  (forall ins e rest' w',
     V2.ask_yes_no lower_full p ins w = Raised e rest' w' ->
     e = OtherError /\
     exists pre', ins = pre' ++ Failure :: rest' /\ Forall (invalid lower_full) pre') /\
  (forall ins, same_log w (world_of (V2.ask_yes_no lower_full p ins w))).
Proof.
  intros Hpre. split; [|split].
  - rewrite ask_yes_no_skips by exact Hpre. cbn. f_equal. same_world.
  - intros ins e rest' w'. apply ask_yes_no_raised.
  - intros ins. apply ask_yes_no_same_log.
Qed.

End Answers.

(** ** What a session leaves behind *)

Lemma scores_of_app os1 os2 : scores_of (os1 ++ os2) = scores_of os1 ++ scores_of os2.
Proof. apply flat_map_app. Qed.

Lemma closes_shift a pre seed seed' os0 w w' :
  seed ++ scores_of os0 = pre ++ seed' ->
  closes (a + Z.of_nat (length pre)) seed' (shows os0 w) w' ->
  closes a seed w w'.
Proof.
  intros Hseed (os & sc & s & Hout & Hlast & Hlog & Hclock & Hticks).
  exists (os0 ++ os), (pre ++ sc), s.
  assert (seed ++ scores_of (os0 ++ os) = pre ++ seed' ++ scores_of os) as Hall
    by (rewrite scores_of_app, app_assoc, Hseed, <- app_assoc; reflexivity).
  split; [|split; [|split; [|split]]].
  - rewrite Hout. cbn. apply eq_sym, app_assoc.
  - rewrite Hall, Hlast, app_assoc. reflexivity.
  - rewrite Hlog, Hall. cbn [shows logfile clock ticks].
    rewrite (length_app pre), Nat2Z.inj_add, Z.add_assoc. reflexivity.
  - exact Hclock.
  - exact Hticks.
Qed.

Lemma suffix_trans rest ins' ins : suffix rest ins' -> suffix ins' ins -> suffix rest ins.
Proof.
  intros [u1 ->] [u2 ->]. exists (u2 ++ u1). apply app_assoc.
Qed.

Lemma suffix_In e rest ins : suffix rest ins -> In e rest -> In e ins.
Proof. intros [u ->] Hin. apply in_or_app. right. exact Hin. Qed.

Lemma session_ok_shift a a' pre seed seed' os0 ins ins' w o :
  a' = a + Z.of_nat (length pre) ->
  seed ++ scores_of os0 = pre ++ seed' -> suffix ins' ins ->
  session_ok a' seed' ins' (shows os0 w) o ->
  session_ok a seed ins w o.
Proof.
  intros -> Hseed Hsuf.
  destruct o as [[] rest w'|w'|[| |code] rest w']; cbn [session_ok].
  - intros [H Hrest]. split; [|exact (suffix_trans _ _ _ Hrest Hsuf)].
    exact (closes_shift _ _ _ _ _ _ _ Hseed H).
  - intros H. exact (same_log_trans _ _ _ (same_log_shows os0 w) H).
  - intros H. exact (same_log_trans _ _ _ (same_log_shows os0 w) H).
  - intros [H Hin]. split; [|exact (suffix_In _ _ _ Hsuf Hin)].
    exact (same_log_trans _ _ _ (same_log_shows os0 w) H).
  - intros (Hc & H & Hrest). split; [exact Hc|].
    split; [|exact (suffix_trans _ _ _ Hrest Hsuf)].
    exact (closes_shift _ _ _ _ _ _ _ Hseed H).
Qed.

Lemma session_ok_before a seed os0 ins ins' w o :
  scores_of os0 = [] -> suffix ins' ins ->
  session_ok a seed ins' (shows os0 w) o -> session_ok a seed ins w o.
Proof.
  intros Hos Hincl H. apply (session_ok_shift a a [] seed seed os0 ins ins'); auto.
  - cbn [length]. lia.
  - rewrite Hos, app_nil_r. reflexivity.
Qed.


Lemma closes_accepted_v1 a w : closes a [] w (accepted_v1 (a + 1) w).
Proof.
  eexists _, [], 5.
  split; [cbn; rewrite <- !app_assoc; reflexivity|].
  repeat split.
Qed.

Lemma closes_declined a s w :
  closes a [(s, V2.rating_from_score s)] w
    (shows [Say LogSaved]
       (logged (a + 1) s (V2.rating_from_score s)
          (shows [Ask RetryPrompt; Say AllDone; Say (ThankYou (a + 1))] w))).
Proof.
  eexists _, [], s.
  split; [cbn; rewrite <- !app_assoc; reflexivity|].
  repeat split.
Qed.

Ltac tail_of_input :=
  first [ exists []; reflexivity
        | eexists [_]; reflexivity
        | eexists [_; _]; reflexivity ].

Section Sessions.
Variable lower_full : str -> nat -> str.

Local Abbreviation run_password_check_loop := (V2.run_password_check_loop lower_full).
Local Abbreviation script_loop := (V1.script_loop lower_full).
Local Abbreviation after_v2 := (after_rejection lower_full).
Local Abbreviation after_v1 := (after_rejection_v1 lower_full).


Lemma sessions_v1 n : forall ins, (length ins < n)%nat ->
  (forall a w, session_ok a [] ins w (script_loop a ins w)) /\
  (forall a s w,
     session_ok a [(s, V2.rating_from_score s)] ins w (after_v1 (a + 1) s ins w)).
Proof.
  induction n as [|n IH]; intros ins Hlen; [lia|].
  split.
  - intros a w. destruct ins as [|[password| |] rest].
    + rewrite script_loop_nil. apply same_log_shows.
    + cbn [length] in Hlen. destruct (IH rest ltac:(lia)) as [IHloop IHafter].
      destruct (V2.is_blank password) eqn:Hb.
      * rewrite script_loop_blank by exact Hb.
        generalize (IHloop a (shows [Ask PasswordPrompt; Say EmptyInput] w)).
        apply session_ok_before; [reflexivity | tail_of_input].
      * destruct (V2.feedback password) as [r|] eqn:Hf.
        -- rewrite (script_loop_rejected_after _ _ _ r) by assumption.
           generalize (IHafter a (V2.score_password_default password)
                         (rejected r password w)).
           unfold rejected.
           apply (session_ok_shift a a [] [] _ _ _ rest);
             [cbn [length]; lia | reflexivity | tail_of_input].
        -- rewrite script_loop_accepted by assumption.
           split; [apply closes_accepted_v1 | tail_of_input].
    + cbn [length] in Hlen. destruct (IH rest ltac:(lia)) as [IHloop _].
      rewrite script_loop_interrupt.
      generalize (IHloop a (shows [Ask PasswordPrompt; Say InterruptedTypePassword] w)).
      apply session_ok_before; [reflexivity | tail_of_input].
    + cbn [length] in Hlen. destruct rest as [|[password| |] rest'].
      * rewrite script_loop_failure_nil. apply same_log_shows.
      * rewrite script_loop_failure_line.
        destruct (IH (Line password :: rest') ltac:(cbn [length] in *; lia))
          as [IHloop _].
        generalize (IHloop a (shows [Ask PasswordPrompt; Say VisibleInputV1] w)).
        apply session_ok_before; [reflexivity | tail_of_input].
      * rewrite script_loop_failure_interrupt.
        destruct (IH rest' ltac:(cbn [length] in *; lia)) as [IHloop _].
        generalize (IHloop a (shows [Ask PasswordPrompt; Say VisibleInputV1;
                                     Ask PasswordPrompt; Say InterruptedTypePassword] w)).
        apply session_ok_before; [reflexivity | tail_of_input].
      * rewrite script_loop_failure_failure.
        split; [apply same_log_shows | left; reflexivity].
  - intros a s w. destruct ins as [|[ans| |] rest].
    + rewrite after_v1_nil. apply same_log_shows.
    + cbn [length] in Hlen. destruct (IH rest ltac:(lia)) as [IHloop IHafter].
      destruct (answer_cases lower_full ans) as [Hy|[Hn|[Hy Hn]]].
      * rewrite after_v1_yes by exact Hy.
        generalize (IHloop (a + 1) (shows [Ask RetryPrompt; Say BlankLine] w)).
        apply (session_ok_shift a (a + 1) [(s, V2.rating_from_score s)] _ []
                 _ _ rest);
          [reflexivity | reflexivity | tail_of_input].
      * rewrite after_v1_no by exact Hn.
        split; [reflexivity|]. split; [apply closes_declined | tail_of_input].
      * rewrite after_v1_invalid by assumption.
        generalize (IHafter a s (shows [Ask RetryPrompt; Say HeyNotYesNo] w)).
        apply session_ok_before; [reflexivity | tail_of_input].
    + rewrite after_v1_interrupt. apply same_log_shows.
    + rewrite after_v1_failure.
      split; [apply same_log_shows | left; reflexivity].
Qed.


(** X10: what the script of v1.0 leaves behind.  Its loop ends by a return
    (the password was accepted) or by [SystemExit], always with status 0, and
    then exactly one log line has been appended, counting one attempt per
    score line displayed and carrying the last score and rating.  In every
    other case, an interrupt at the retry prompt included, the log file and
    the clock are untouched. *)
Theorem script_logs_last_attempt attempts ins w :
  (forall rest w',
     script_loop attempts ins w = Returned tt rest w' \/
     (exists code, script_loop attempts ins w = Raised (SystemExit code) rest w') ->
     exists os sc s,
       stdout w' = stdout w ++ os /\
       scores_of os = sc ++ [(s, V2.rating_from_score s)] /\
       logfile w' = logfile w ++
         [log_line (clock w (ticks w))
            (attempts + Z.of_nat (length (scores_of os))) s
            (V2.rating_from_score s)] /\
       clock w' = clock w /\ ticks w' = S (ticks w) /\
       exists used, ins = used ++ rest) /\
  (forall code rest w',
     script_loop attempts ins w = Raised (SystemExit code) rest w' -> code = 0) /\
  (forall e rest w',
     script_loop attempts ins w = Raised e rest w' ->
     e = Interrupted \/ e = OtherError ->
     same_log w w') /\
  (forall w', script_loop attempts ins w = Waiting w' -> same_log w w').
Proof.
  destruct (sessions_v1 (S (length ins)) ins (Nat.lt_succ_diag_r _)) as [H _].
  pose proof (H attempts w) as Hok.
  destruct (script_loop attempts ins w)
    as [[] rest0 w0|w0|[| |code0] rest0 w0]; cbn in Hok.
  - split; [|split; [|split]]; try (intros; discriminate).
    intros rest w' [Heq|[code Heq]]; [|discriminate].
    injection Heq as <- <-.
    destruct Hok as [(os & sc & s & H1 & H2 & H3 & H4 & H5) Hsuf].
    exists os, sc, s. auto 10.
  - split; [|split; [|split]]; try (intros; discriminate).
    + intros rest w' [Heq|[code Heq]]; discriminate.
    + intros w' Heq. injection Heq as <-. exact Hok.
  - split; [|split; [|split]]; try (intros; discriminate).
    + intros rest w' [Heq|[code Heq]]; discriminate.
    + intros e rest w' Heq _. injection Heq as _ _ <-. exact Hok.
  - split; [|split; [|split]]; try (intros; discriminate).
    + intros rest w' [Heq|[code Heq]]; discriminate.
    + intros e rest w' Heq _. injection Heq as _ _ <-. apply Hok.
  - destruct Hok as (-> & (os & sc & s & H1 & H2 & H3 & H4 & H5) & Hsuf).
    split; [|split; [|split]]; try (intros; discriminate).
    + intros rest w' [Heq|[code Heq]]; [discriminate|].
      injection Heq as _ <- <-. exists os, sc, s. auto 10.
    + intros code rest w' Heq. injection Heq as <- _ _. reflexivity.
    + intros e rest w' Heq [He|He]; subst e; discriminate.
Qed.

End Sessions.

(** ** What counts as an attempt *)

Section Counting.
Variable lower_full : str -> nat -> str.

Local Abbreviation ask_yes_no := (V2.ask_yes_no lower_full).
Local Abbreviation run_password_check_loop := (V2.run_password_check_loop lower_full).
Local Abbreviation script_loop := (V1.script_loop lower_full).
Local Abbreviation main_loop := (V2.main_loop lower_full).

Lemma shows_shows os1 os2 w : shows os2 (shows os1 w) = shows (os1 ++ os2) w.
Proof. same_world. Qed.

Lemma shows_nil w : shows [] w = w.
Proof. apply world_eq; cbn; auto using app_nil_r. Qed.

Lemma loops_uncounted pre : forall tail a w,
  Forall uncounted pre ->
  exists os os1,
    run_password_check_loop a (pre ++ tail) w
      = run_password_check_loop a tail (shows os w) /\
    script_loop a (pre ++ tail) w = script_loop a tail (shows os1 w) /\
    scores_of os = [] /\ reasons os = [] /\
    scores_of os1 = [] /\ reasons os1 = [].
Proof.
  induction pre as [|e pre IH]; intros tail a w Hpre.
  - exists [], []. cbn [app].
    rewrite shows_nil. auto 10.
  - inversion_clear Hpre as [|? ? He Hpre']. rewrite <- app_comm_cons.
    destruct He as [-> | [s [-> Hs]]].
    + destruct (IH tail a (shows [Ask PasswordPrompt; Say InterruptedTryAgain] w)
                  Hpre') as (os & os1 & H2 & _ & Hs2 & Hr2 & _).
      destruct (IH tail a (shows [Ask PasswordPrompt; Say InterruptedTypePassword] w)
                  Hpre') as (os' & os1' & _ & H1 & _ & _ & Hs1 & Hr1).
      exists ([Ask PasswordPrompt; Say InterruptedTryAgain] ++ os),
             ([Ask PasswordPrompt; Say InterruptedTypePassword] ++ os1').
      rewrite loop_interrupt, script_loop_interrupt, H2, H1, !shows_shows.
      unfold reasons in *. rewrite !scores_of_app, !flat_map_app, Hs2, Hr2, Hs1, Hr1.
      auto 10.
    + apply is_blank_whitespace in Hs.
      destruct (IH tail a (shows [Ask PasswordPrompt; Say EmptyInput] w) Hpre')
        as (os & os1 & H2 & H1 & Hs2 & Hr2 & Hs1 & Hr1).
      exists ([Ask PasswordPrompt; Say EmptyInput] ++ os),
             ([Ask PasswordPrompt; Say EmptyInput] ++ os1).
      rewrite loop_blank, script_loop_blank, H2, H1, !shows_shows by exact Hs.
      unfold reasons in *. rewrite !scores_of_app, !flat_map_app, Hs2, Hr2, Hs1, Hr1.
      auto 10.
Qed.

(** X11: blank lines and interrupted reads, in any number and order, are
    not attempts.  Both loops go through them with the same attempt count,
    showing no blocking reason and no score; a password accepted right after
    them is logged as attempt number one more than the count at the start. *)
Theorem uncounted_events_are_skipped a pre tail password rest w :
  Forall uncounted pre ->
  (exists os os1,
     run_password_check_loop a (pre ++ tail) w
       = run_password_check_loop a tail (shows os w) /\
     script_loop a (pre ++ tail) w = script_loop a tail (shows os1 w) /\
     scores_of os = [] /\ reasons os = [] /\
     scores_of os1 = [] /\ reasons os1 = []) /\
  (~ whitespace_only password -> V2.score_password_default password = 5 ->
   exists w' w1',
     run_password_check_loop a (pre ++ Line password :: rest) w = Returned tt rest w' /\
     script_loop a (pre ++ Line password :: rest) w = Returned tt rest w1' /\
     logfile w' = logfile w ++ [log_line (clock w (ticks w)) (a + 1) 5 (u "Strong")] /\
     logfile w1' = logfile w').
Proof.
  intros Hpre. split; [apply loops_uncounted, Hpre|].
  intros Hw Hs. apply not_blank in Hw. apply feedback_none_score in Hs.
  destruct (loops_uncounted pre (Line password :: rest) a w Hpre)
    as (os & os1 & H2 & H1 & _).
  exists (accepted (a + 1) (shows os w)), (accepted_v1 (a + 1) (shows os1 w)).
  rewrite H2, H1, loop_accepted, script_loop_accepted by assumption.
  repeat split.
Qed.

Lemma loops_retried tries : forall tail a w,
  Forall (retried lower_full) tries ->
  exists os os1,
    run_password_check_loop a (flat_map try_events tries ++ tail) w
      = run_password_check_loop (a + Z.of_nat (length tries)) tail (shows os w) /\
    script_loop a (flat_map try_events tries ++ tail) w
      = script_loop (a + Z.of_nat (length tries)) tail (shows os1 w) /\
    length (scores_of os) = length tries /\
    length (scores_of os1) = length tries.
Proof.
  induction tries as [|[p ans] tries IH]; intros tail a w Htries.
  - exists [], []. cbn [app flat_map length Z.of_nat].
    rewrite shows_nil, Z.add_0_r. auto.
  - inversion_clear Htries as [|? ? Htry Htries']. destruct Htry as (Hw & Hs & Hy).
    cbn [fst snd] in *. apply not_blank in Hw.
    destruct (V2.feedback p) as [r|] eqn:Hf;
      [|apply feedback_none_score in Hf; contradiction].
    destruct (IH tail (a + 1)
                (shows [Ask RetryPrompt; Say BlankLine] (rejected r p w)) Htries')
      as (os & os1 & H2 & H1 & Hl2 & Hl1).
    unfold rejected in H2, H1. rewrite shows_shows in H2, H1.
    eexists _, _.
    cbn [flat_map try_events fst snd app length].
    rewrite (loop_rejected_after _ _ _ r), after_yes by assumption.
    rewrite (script_loop_rejected_after _ _ _ r), after_v1_yes by assumption.
    unfold rejected. rewrite !shows_shows, H2, H1, !shows_shows.
    rewrite Nat2Z.inj_succ.
    replace (a + 1 + Z.of_nat (length tries))
      with (a + Z.succ (Z.of_nat (length tries))) by lia.
    split; [reflexivity|]. split; [reflexivity|].
    rewrite !scores_of_app, !length_app, Hl2, Hl1. split; reflexivity.
Qed.

(** X12: every rejected password that the user retries after counts for
    one attempt.  After [k] such tries, a password that is accepted is logged
    as attempt [k + 1] (past the count at the start), and so is a password
    that is rejected and not retried, with its own score and rating; v1.0
    logs the same lines. *)
Theorem retries_are_counted a tries password ans rest w :
  Forall (retried lower_full) tries ->
  ~ whitespace_only password ->
  (V2.score_password_default password = 5 ->
   exists w' w1',
     run_password_check_loop a (flat_map try_events tries ++ Line password :: rest) w
       = Returned tt rest w' /\
     script_loop a (flat_map try_events tries ++ Line password :: rest) w
       = Returned tt rest w1' /\
     logfile w' = logfile w ++
       [log_line (clock w (ticks w)) (a + Z.of_nat (length tries) + 1) 5 (u "Strong")] /\
     logfile w1' = logfile w') /\
  (V2.score_password_default password <> 5 -> says_no lower_full ans ->
   exists w' w1',
     run_password_check_loop a
       (flat_map try_events tries ++ Line password :: Line ans :: rest) w
       = Returned tt rest w' /\
     script_loop a
       (flat_map try_events tries ++ Line password :: Line ans :: rest) w
       = Raised (SystemExit 0) rest w1' /\
     logfile w' = logfile w ++
       [log_line (clock w (ticks w)) (a + Z.of_nat (length tries) + 1)
          (V2.score_password_default password)
          (V2.rating_from_score (V2.score_password_default password))] /\
     logfile w1' = logfile w').
Proof.
  intros Htries Hw. apply not_blank in Hw. split.
  - intros Hs. apply feedback_none_score in Hs.
    destruct (loops_retried tries (Line password :: rest) a w Htries)
      as (os & os1 & H2 & H1 & _).
    eexists _, _. rewrite H2, H1, loop_accepted, script_loop_accepted by assumption.
    repeat split.
  - intros Hs Hno.
    destruct (V2.feedback password) as [r|] eqn:Hf;
      [|apply feedback_none_score in Hf; contradiction].
    destruct (loops_retried tries (Line password :: Line ans :: rest) a w Htries)
      as (os & os1 & H2 & H1 & _).
    eexists _, _. rewrite H2, H1.
    rewrite (loop_rejected_after _ _ _ r), after_no by assumption.
    rewrite (script_loop_rejected_after _ _ _ r), after_v1_no by assumption.
    repeat split.
Qed.

(** X13: v1.0 dies of an interrupt at its retry prompt, and the attempt just
    scored is then never logged; v2.0 on the same events shows a notice and
    asks again. *)
Theorem interrupt_at_retry_prompt a password rest w :
  ~ whitespace_only password ->
  V2.score_password_default password <> 5 ->
  exists r w',
    first_unmet r password /\
    script_loop a (Line password :: Interrupt :: rest) w = Raised Interrupted rest w' /\
    stdout w' = stdout (rejected r password w) ++ [Ask RetryPrompt] /\
    logfile w' = logfile w /\
    run_password_check_loop a (Line password :: Interrupt :: rest) w
      = after_rejection lower_full (a + 1) (V2.score_password_default password) rest
          (shows [Say InterruptedTypeYesNo] w').
Proof.
  intros Hw Hs. apply not_blank in Hw.
  destruct (V2.feedback password) as [r|] eqn:Hf;
    [|apply feedback_none_score in Hf; contradiction].
  exists r, (shows [Ask RetryPrompt] (rejected r password w)).
  split; [apply feedback_first_unmet, Hf|].
  rewrite (script_loop_rejected_after _ _ _ r), after_v1_interrupt by assumption.
  rewrite (loop_rejected_after _ _ _ r), after_interrupt by assumption.
  repeat split. f_equal. same_world.
Qed.

End Counting.

(** ** The main program *)

Section Main.
Variable lower_full : str -> nat -> str.

Local Abbreviation ask_yes_no := (V2.ask_yes_no lower_full).
Local Abbreviation run_password_check_loop := (V2.run_password_check_loop lower_full).
Local Abbreviation main_loop := (V2.main_loop lower_full).

Lemma main_loop_unfold ins w :
  main_loop ins w =
  match V2.run_password_check lower_full ins w with
  | Returned _ rest1 w1 =>
      match ask_yes_no AnotherPrompt rest1 w1 with
      | Returned true rest2 w2 => main_loop rest2 (shows [Say BlankLine] w2)
      | Returned false rest2 w2 => Returned tt rest2 (shows [Say Goodbye] w2)
      | Waiting w2 => Waiting w2
      | Raised e rest2 w2 => Raised e rest2 w2
      end
  | Waiting w1 => Waiting w1
  | Raised e rest1 w1 => Raised e rest1 w1
  end.
Proof.
  rewrite V2.main_loop_step. unfold V2.main_body, bind at 1.
  destruct (V2.run_password_check lower_full ins w) as [[] rest1 w1| |];
    try reflexivity.
  unfold bind at 1.
  destruct (ask_yes_no AnotherPrompt rest1 w1) as [[|] rest2 w2| |];
    reflexivity.
Qed.

Lemma main_as_loop ins w :
  V2.main lower_full ins w = main_loop ins (shows [Say Banner] w).
Proof. reflexivity. Qed.




(** X15: each check of [main] counts its attempts from one.  With [k1]
    retried rejections before a first accepted password, a yes to another
    check, then [k2] retried rejections before a second accepted password and
    a no, [main] returns having logged attempt [k1 + 1] and then attempt
    [k2 + 1], at two successive readings of the clock. *)
Theorem attempts_restart_with_each_check tries1 p1 a1 tries2 p2 a2 rest w :
  Forall (retried lower_full) tries1 -> Forall (retried lower_full) tries2 ->
  ~ whitespace_only p1 -> V2.score_password_default p1 = 5 ->
  ~ whitespace_only p2 -> V2.score_password_default p2 = 5 ->
  says_yes lower_full a1 -> says_no lower_full a2 ->
  exists w',
    V2.main lower_full
      (flat_map try_events tries1 ++ Line p1 :: Line a1 ::
       flat_map try_events tries2 ++ Line p2 :: Line a2 :: rest) w
      = Returned tt rest w' /\
    logfile w' = logfile w ++
      [log_line (clock w (ticks w)) (Z.of_nat (length tries1) + 1) 5 (u "Strong");
       log_line (clock w (S (ticks w))) (Z.of_nat (length tries2) + 1) 5 (u "Strong")].
Proof.
  intros Ht1 Ht2 Hw1 Hs1 Hw2 Hs2 Hyes Hno.
  apply not_blank in Hw1, Hw2. apply feedback_none_score in Hs1, Hs2.
  rewrite main_as_loop, main_loop_unfold. unfold V2.run_password_check.
  destruct (loops_retried lower_full tries1
              (Line p1 :: Line a1 :: flat_map try_events tries2
                 ++ Line p2 :: Line a2 :: rest) 0 (shows [Say Banner] w) Ht1)
    as (os1 & _ & H1 & _).
  rewrite H1, loop_accepted, ask_yes_no_yes by assumption.
  rewrite main_loop_unfold. unfold V2.run_password_check.
  match goal with
  | |- context [run_password_check_loop 0 _ ?w0] =>
      destruct (loops_retried lower_full tries2 (Line p2 :: Line a2 :: rest) 0 w0 Ht2)
        as (os2 & _ & H2 & _)
  end.
  rewrite H2, loop_accepted, ask_yes_no_no by assumption.
  eexists. split; [reflexivity|].
  cbn. rewrite <- app_assoc. reflexivity.
Qed.

End Main.

(** ** The reported reason and the score *)

(** X16: the reason reported bounds the score from below.  The rules that
    come before it in the chain are met, so the score is at least the place
    of the reason in the chain and 4 at most: a password told to add a digit
    or a symbol is rated "Medium", and one told to add a symbol scores 4. *)
Theorem reported_reason_bounds_score password r :
  V2.feedback password = Some r ->
  rank r <= V2.score_password_default password <= 4 /\
  (r = NoDigit \/ r = NoSymbol ->
   V2.rating_from_score (V2.score_password_default password) = u "Medium") /\
  (r = NoSymbol -> V2.score_password_default password = 4).
Proof.
  unfold V2.feedback, V2.score_password_default, V2.score_password.
  rewrite Z.geb_leb, Z.leb_antisym.
  destruct (len password <? 8), (re_search pat_upper password),
    (re_search pat_lower password), (re_search pat_digit password),
    (re_search pat_symbols password); cbn [negb];
    intros H; try discriminate H; injection H as <-; cbn;
    (split; [lia|]); (split; [intros [?|?]; (discriminate || reflexivity)|]);
    intros ?; (discriminate || reflexivity).
Qed.

(** ** Concrete runs of the further properties *)



Lemma short_password_never_strong_witness :
  len (u "Ab1!") < 8 /\ V2.feedback (u "Ab1!") = Some TooShort.
Proof.
  assert (len (u "Ab1!") < 8) as H by (cbn; lia).
  split; [exact H|].
  destruct (short_password_never_strong (u "Ab1!") H) as (_ & _ & Hf & _).
  exact Hf.
Defined.

Lemma ask_yes_no_ignores_case_and_padding_witness :
  whitespace_only (u " ") /\ whitespace_only [9%N; 10%N] /\
  spells (u "yEs") (u "yes") /\
  V2.ask_yes_no plain_lower RetryPrompt
    (Line (u " " ++ u "yEs" ++ [9%N; 10%N]) :: one_check) noon
    = Returned true one_check (shows [Ask RetryPrompt] noon).
Proof.
  assert (whitespace_only (u " ")) as H1 by (repeat constructor).
  assert (whitespace_only [9%N; 10%N]) as H2 by (repeat constructor).
  assert (spells (u "yEs") (u "yes")) as H3.
  { repeat constructor; cbn; lia. }
  split; [exact H1|]. split; [exact H2|]. split; [exact H3|].
  destruct (ask_yes_no_ignores_case_and_padding plain_lower RetryPrompt
              (u " ") (u "yEs") [9%N; 10%N] one_check noon H1 H2) as [Hyes _].
  apply Hyes. right. exact H3.
Defined.

Lemma ask_yes_no_raises_on_failure_only_witness :
  Forall (invalid plain_lower) [Line (u "maybe"); Interrupt] /\
  V2.ask_yes_no plain_lower AnotherPrompt
    ([Line (u "maybe"); Interrupt] ++ Failure :: one_check) noon
    = Raised OtherError one_check
        (shows (reprompts AnotherPrompt [Line (u "maybe"); Interrupt]
                  ++ [Ask AnotherPrompt]) noon).
Proof.
  assert (Forall (invalid plain_lower) [Line (u "maybe"); Interrupt]) as Hpre.
  { constructor; [|constructor; [exact I | constructor]].
    split; intros [H|[H|[]]]; discriminate H. }
  split; [exact Hpre|].
  exact (proj1 (ask_yes_no_raises_on_failure_only plain_lower AnotherPrompt _
                  one_check noon Hpre)).
Defined.

Lemma blank_tab_line : whitespace_only [9%N; 32%N].
Proof. repeat constructor. Qed.

Lemma short1_rejected : V2.score_password_default (u "short1") <> 5.
Proof. vm_compute. discriminate. Qed.

Lemma short1_retried : retried plain_lower (u "short1", u "Y").
Proof.
  split; [exact short1_not_blank|]. split; [exact short1_rejected|].
  left. reflexivity.
Qed.

Lemma uncounted_events_are_skipped_witness :
  Forall uncounted [Interrupt; Line [9%N; 32%N]] /\
  ~ whitespace_only (u "Str0ng!Pass") /\
  V2.score_password_default (u "Str0ng!Pass") = 5 /\
  exists w',
    V2.run_password_check_loop plain_lower 0
      ([Interrupt; Line [9%N; 32%N]] ++ Line (u "Str0ng!Pass") :: []) noon
      = Returned tt [] w' /\
    logfile w' =
      [u "2025-10-16T12:00:00 | attempts=1 | score=5/5 | rating=Strong" ++ [10%N]].
Proof.
  assert (Forall uncounted [Interrupt; Line [9%N; 32%N]]) as Hpre.
  { constructor; [left; reflexivity|].
    constructor; [|constructor]. right. exists [9%N; 32%N].
    split; [reflexivity | exact blank_tab_line]. }
  split; [exact Hpre|]. split; [exact strong_not_blank|]. split; [reflexivity|].
  destruct (uncounted_events_are_skipped plain_lower 0 _ [] (u "Str0ng!Pass") []
              noon Hpre) as [_ Hacc].
  destruct (Hacc strong_not_blank eq_refl) as (w' & _ & Hrun & _ & Hlog & _).
  exists w'. split; [exact Hrun | exact Hlog].
Defined.

Lemma retries_are_counted_witness :
  Forall (retried plain_lower) [(u "short1", u "Y"); (u "short1", u "Y")] /\
  ~ whitespace_only (u "Str0ng!Pass") /\
  exists w',
    V2.run_password_check_loop plain_lower 0
      (flat_map try_events [(u "short1", u "Y"); (u "short1", u "Y")]
         ++ Line (u "Str0ng!Pass") :: []) noon
      = Returned tt [] w' /\
    logfile w' =
      [u "2025-10-16T12:00:00 | attempts=3 | score=5/5 | rating=Strong" ++ [10%N]].
Proof.
  assert (Forall (retried plain_lower) [(u "short1", u "Y"); (u "short1", u "Y")])
    as Htries
    by (constructor; [exact short1_retried|];
        constructor; [exact short1_retried | constructor]).
  split; [exact Htries|]. split; [exact strong_not_blank|].
  destruct (retries_are_counted plain_lower 0 _ (u "Str0ng!Pass") [] [] noon
              Htries strong_not_blank) as [Hacc _].
  destruct (Hacc eq_refl) as (w' & _ & Hrun & _ & Hlog & _).
  exists w'. split; [exact Hrun | exact Hlog].
Defined.

Lemma interrupt_at_retry_prompt_witness :
  ~ whitespace_only (u "short1") /\
  V2.score_password_default (u "short1") <> 5 /\
  exists w',
    V1.script_loop plain_lower 0 (Line (u "short1") :: Interrupt :: one_check) noon
      = Raised Interrupted one_check w' /\
    logfile w' = logfile noon.
Proof.
  split; [exact short1_not_blank|]. split; [exact short1_rejected|].
  destruct (interrupt_at_retry_prompt plain_lower 0 _ one_check noon
              short1_not_blank short1_rejected)
    as (r & w' & _ & Hrun & _ & Hlog & _).
  exists w'. split; [exact Hrun | exact Hlog].
Defined.

Lemma attempts_restart_with_each_check_witness :
  Forall (retried plain_lower) [(u "short1", u "Y")] /\
  Forall (retried plain_lower) [] /\
  says_yes plain_lower (u "yes") /\ says_no plain_lower (u "n") /\
  exists w',
    V2.main plain_lower
      (flat_map try_events [(u "short1", u "Y")]
         ++ Line (u "Str0ng!Pass") :: Line (u "yes")
         :: flat_map try_events [] ++ Line (u "Str0ng!Pass") :: Line (u "n") :: [])
      noon = Returned tt [] w' /\
    logfile w' =
      [u "2025-10-16T12:00:00 | attempts=2 | score=5/5 | rating=Strong" ++ [10%N];
       u "2025-10-16T12:00:00 | attempts=1 | score=5/5 | rating=Strong" ++ [10%N]].
Proof.
  assert (Forall (retried plain_lower) [(u "short1", u "Y")]) as Ht1
    by (constructor; [exact short1_retried | constructor]).
  assert (Forall (retried plain_lower) []) as Ht2 by constructor.
  assert (says_yes plain_lower (u "yes")) as Hyes by (right; left; reflexivity).
  assert (says_no plain_lower (u "n")) as Hno by (left; reflexivity).
  split; [exact Ht1|]. split; [exact Ht2|]. split; [exact Hyes|].
  split; [exact Hno|].
  destruct (attempts_restart_with_each_check plain_lower _ (u "Str0ng!Pass")
              (u "yes") _ (u "Str0ng!Pass") (u "n") [] noon Ht1 Ht2
              strong_not_blank eq_refl strong_not_blank eq_refl Hyes Hno)
    as (w' & Hrun & Hlog).
  exists w'. split; [exact Hrun | exact Hlog].
Defined.

Lemma reported_reason_bounds_score_witness :
  V2.feedback (u "Password1") = Some NoSymbol /\
  V2.score_password_default (u "Password1") = 4.
Proof.
  assert (V2.feedback (u "Password1") = Some NoSymbol) as H by reflexivity.
  split; [exact H|].
  destruct (reported_reason_bounds_score (u "Password1") NoSymbol H)
    as (_ & _ & Hfour).
  exact (Hfour eq_refl).
Defined.
